(** * css-modules-require-hook: the fetch engine, the lazy token proxy
      and the extension hook of [lib/index.js]

    The development embeds [setupHook] of [lib/index.js]:

    - [resolveFilename], [fetch] (with the recursive calls the postcss
      runner makes through the [Parser] plugin), [fetchProxy] (the two
      traps of the proxy), [cssModulesHook] and [buildExceptionChecker];
    - the closure variable [tokensByFile], the host's [require.cache], the
      objects that hold token mappings and the proxies' private targets are
      fields of one explicit store that every operation threads; a trace of
      events records the reads, the runs of the runner and the log lines;
    - collaborators that are not part of the file (lodash, path, fs,
      postcss, the module loader) are fields of the record [host]; a run of
      the runner is a tree of calls to [fetch] that ends with a result or
      an exception;
    - [fetch] is recursive through the runner, with no bound of its own: it
      takes the depth of recursion it may use.

    The targets of the proxies and the mapping objects are plain objects
    with their prototype: a read finds what they inherit from
    [Object.prototype], whose members are the host's, and an assignment to
    [__proto__] goes to its setter. [tokensByFile] and [require.cache] are
    finite maps: their keys are the paths that [resolveFilename] returns,
    absolute paths that are never the name of a member of
    [Object.prototype]. Effects of the callbacks [preprocessCss] and
    [processCss] other than their call are outside the model. *)

From Stdlib Require Import ZArith Lia Ascii String.
From stdpp Require Import gmap strings list fin_maps.

Open Scope string_scope.

(** ** Values *)

(** The JavaScript values the module handles: primitives, references to
    plain objects of the store ([VObj r], identity is the address [r]) and
    objects of the host, such as its functions ([VHost id]). Numbers are
    integers here; [NaN] is not represented. *)
Inductive value :=
| VUndefined
| VNull
| VBool (b : bool)
| VNum (n : Z)
| VStr (s : string)
| VObj (r : nat)
| VHost (id : nat).

(** [Object.prototype], the prototype of every object literal. *)
Definition ObjectPrototype : value := VHost 0.

#[global] Instance value_eq_dec : EqDecision value.
Proof. solve_decision. Defined.

(** What [if (v)], [v || w] and [!v] test. *)
Definition truthy (v : value) : bool :=
  match v with
  | VUndefined | VNull => false
  | VBool b => b
  | VNum n => negb (n =? 0)%Z
  | VStr s => negb (String.eqb s "")
  | VObj _ => true
  | VHost _ => true
  end.

(** A property key met by a proxy trap is a string or a symbol (a symbol is
    kept by its description). *)
Inductive key :=
| KStr (s : string)
| KSym (description : string).

#[global] Instance key_eq_dec : EqDecision key.
Proof. solve_decision. Defined.

#[global] Instance key_countable : Countable key.
Proof.
  refine (inj_countable'
            (fun k => match k with KStr s => inl s | KSym d => inr d end)
            (fun x => match x with inl s => KStr s | inr d => KSym d end) _).
  intros []; reflexivity.
Defined.

(** [String(name)] for a symbol. *)
Definition symbol_to_string (description : string) : string :=
  "Symbol(" +:+ description +:+ ")".

(** What the engine can throw. *)
Inductive error :=
| ModuleNotFound (specifier : string)   (* require.resolve *)
| ENOENT (path : string)                (* readFileSync *)
| CssSyntaxError (message : string)     (* the postcss runner *)
| ReferenceError (identifier : string)
| TypeError (message : string).

(** ** Plain objects with ordered own properties *)

(** The own enumerable string-keyed properties of a plain object, in
    insertion order; keys are unique in every object built with [obj_set]. *)
Definition obj := list (string * value).

Fixpoint obj_get (k : string) (o : obj) : option value :=
  match o with
  | [] => None
  | (k', v) :: o' => if String.eqb k' k then Some v else obj_get k o'
  end.

(** [o[k] = v]: an existing key keeps its place, a new key goes last. *)
Fixpoint obj_set (k : string) (v : value) (o : obj) : obj :=
  match o with
  | [] => [(k, v)]
  | (k', v') :: o' =>
      if String.eqb k' k then (k', v) :: o' else (k', v') :: obj_set k v o'
  end.

Definition obj_keys (o : obj) : list string := map fst o.

(** [target[g(key)] = value] for every property of [source], in order. *)
Definition set_all (g : string -> string) (source target : obj) : obj :=
  fold_left (fun acc kv => obj_set (g (fst kv)) (snd kv) acc) source target.

(** An object literal / a sequence of assignments to a new object. *)
Definition obj_of_list (l : list (string * value)) : obj :=
  set_all (fun k => k) l [].

(** lodash [mapKeys(object, (value, key) => f(key))]: a new object, filled
    in iteration order, so that a later key overwrites an earlier one with
    the same image. *)
Definition mapKeys (f : string -> string) (o : obj) : obj :=
  set_all f o [].

(** lodash [assign(target, source)]. *)
Definition assign (target source : obj) : obj :=
  set_all (fun k => k) source target.

(** ** The store *)

Inductive fetch_origin := FromCache | FromFs | FromRequire.

#[global] Instance fetch_origin_eq_dec : EqDecision fetch_origin.
Proof. solve_decision. Defined.

(** Observable effects, newest first in [trace]. *)
Inductive event :=
| EvDebugFetch (filename : string) (origin : fetch_origin)
| EvDebugTokens (tokens : value)
| EvReadFile (filename : string)
| EvPreprocess (filename : string)
| EvProcess (filename : string)            (* runner.process *)
| EvWarn (text : string)                   (* console.warn *)
| EvProcessCss (css filename : string)
| EvProcessTokens (filename : string)
| EvDelegate (module : value) (filename : string)
| EvCompile (fullFilename filename : string).

#[global] Instance event_eq_dec : EqDecision event.
Proof. solve_decision. Defined.

(** A proxy made by [fetchProxy]: the file it stands for and its private
    target object, a plain object with its own properties and its
    prototype. *)
Record proxy := mkProxyWith {
  pfile : string;
  ptarget : gmap key value;
  pproto : value;
}.

(** The target starts as [{}]: its prototype is [Object.prototype]. *)
Definition mkProxy (filename : string) (target : gmap key value) : proxy :=
  mkProxyWith filename target ObjectPrototype.

Inductive cache_entry :=
| CModule
| CProxy (p : nat).

Record state := mkState {
  tokensByFile : gmap string value;
  requireCache : gmap string cache_entry;
  heap : list obj;
  proxies : list proxy;
  trace : list event;
}.

(** The store right after [setupHook]: [const tokensByFile = {}]. *)
Definition init_state (rc : gmap string cache_entry) (h : list obj) : state :=
  mkState ∅ rc h [] [].

Definition log (e : event) (s : state) : state :=
  mkState (tokensByFile s) (requireCache s) (heap s) (proxies s) (e :: trace s).

Definition set_heap (h : list obj) (s : state) : state :=
  mkState (tokensByFile s) (requireCache s) h (proxies s) (trace s).

Definition cache_put (filename : string) (tokens : value) (s : state) : state :=
  mkState (<[filename := tokens]> (tokensByFile s)) (requireCache s)
          (heap s) (proxies s) (trace s).

Definition require_cache_delete (filename : string) (s : state) : state :=
  mkState (tokensByFile s) (delete filename (requireCache s))
          (heap s) (proxies s) (trace s).

Definition require_cache_put (k : string) (e : cache_entry) (s : state) : state :=
  mkState (tokensByFile s) (<[k := e]> (requireCache s))
          (heap s) (proxies s) (trace s).

Definition set_proxies (ps : list proxy) (s : state) : state :=
  mkState (tokensByFile s) (requireCache s) (heap s) ps (trace s).

(** [tokensByFile[filename]]: [undefined] when the property is absent.
    The keys are absolute paths, which [Object.prototype] has no member
    for. *)
Definition cache_lookup (s : state) (filename : string) : value :=
  default VUndefined (tokensByFile s !! filename).

(** ** Computations: a store-passing monad with exceptions *)

(** [OutOfFuel] stands for a call that has not returned within the given
    recursion depth; it is not a JavaScript exception. *)
Inductive outcome (A : Type) :=
| Ok (a : A)
| Throw (e : error)
| OutOfFuel.
Arguments Ok {A} a.
Arguments Throw {A} e.
Arguments OutOfFuel {A}.

Definition M (A : Type) : Type := state -> outcome A * state.

Definition ret {A} (a : A) : M A := fun s => (Ok a, s).
Definition throw {A} (e : error) : M A := fun s => (Throw e, s).
Definition bind {A B} (m : M A) (f : A -> M B) : M B :=
  fun s =>
    match m s with
    | (Ok a, s') => f a s'
    | (Throw e, s') => (Throw e, s')
    | (OutOfFuel, s') => (OutOfFuel, s')
    end.
Definition gets {A} (f : state -> A) : M A := fun s => (Ok (f s), s).
Definition modify (f : state -> state) : M unit := fun s => (Ok tt, f s).
Definition emit (e : event) : M unit := modify (log e).

Notation "'do' x <- m ; f" := (bind m (fun x => f))
  (at level 10, x name, m at level 100, f at level 200).
Notation "m ;; f" := (bind m (fun _ => f))
  (at level 100, f at level 200, right associativity).

Definition lift {A} (o : outcome A) : M A := fun s => (o, s).

(** ** Configuration and collaborators *)

(** [lazyResult]: the fields of the postcss result the engine reads
    ([lazyResult.css], [lazyResult.warnings()], [lazyResult.root.tokens]). *)
Record lazyResult := mkResult {
  lr_css : string;
  lr_warnings : list string;
  lr_tokens : value;
}.

(** The [ignore] option: a regular expression (kept by its [test]), a glob
    string, a predicate, or nothing. *)
Inductive ignore_option :=
| IgnoreRegExp (test : string -> bool)
| IgnoreGlob (glob : string)
| IgnoreFunction (f : string -> value)
| IgnoreUnset.

(** The options of [setupHook] that the functions below read. A configured
    [processTokens] receives the store of objects and may change it. *)
Record options := mkOptions {
  devMode : option bool;
  ignore : ignore_option;
  preprocessCss : string -> string -> string;
  processCss : bool;
  processTokens :
    option (value -> string -> lazyResult -> list obj -> value * list obj);
  camelCase : bool;
}.

(** What a run of the postcss runner over one file does, as seen from the
    engine: it ends with a result, throws, or calls the [fetch] callback of
    the [Parser] plugin and goes on with the returned value. *)
Inductive pipe :=
| PDone (css : string) (warnings : list string) (tokens : list (string * value))
| PThrow (e : error)
| PFetch (_to from : string) (k : value -> list obj -> pipe).

(** The host and the libraries. [global_m] is the binding of the identifier
    [m] in the global scope ([None] when it is not declared); [prim_prop] is
    the property lookup on a primitive string, number or boolean and on an
    object of the host, [Object.prototype] among them. *)
Record host := mkHost {
  node_env : option string;
  require_resolve : string -> option string;
  path_resolve : string -> string -> string;
  path_dirname : string -> string;
  readFileSync : string -> option string;
  runner_process : string -> string -> pipe;
  camelCaseFunc : string -> string;
  glob_test : string -> string -> bool;
  existingHook : option (value -> string -> outcome unit);
  global_m : option value;
  prim_prop : value -> key -> value;
}.

(** ** resolveFilename *)

(** The characters the negated class of the regular expression of
    [resolveFilename] leaves out: backslash, slash, [?], [%], [*], [:],
    [|], the double quote, [<], [>] and the dot. *)
Definition excluded_chars : list ascii :=
  [ascii_of_nat 92; "/"; "?"; "%"; "*"; ":"; "|"; ascii_of_nat 34;
   "<"; ">"; "."]%char.

Definition is_excluded (c : ascii) : bool :=
  existsb (Ascii.eqb c) excluded_chars.

(** [re.test(x)]: some character of [x] is outside the excluded ones. *)
Fixpoint regex_test (x : string) : bool :=
  match x with
  | EmptyString => false
  | String c x' => negb (is_excluded c) || regex_test x'
  end.

(** [String(_to[0])]: indexing the empty string gives [undefined], which
    [test] converts to a string. A first character outside ASCII is a
    byte above 127 here and a code unit above 127 there. *)
Definition first_char (_to : string) : string :=
  match _to with
  | EmptyString => "undefined"
  | String c _ => String c EmptyString
  end.

Section Engine.

Variable opts : options.
Variable hst : host.

(** [require.resolve(_to)] *)
Definition requireResolve (_to : string) : outcome string :=
  match require_resolve hst _to with
  | Some path => Ok path
  | None => Throw (ModuleNotFound _to)
  end.

Definition resolveFilename (_to from : string) : outcome string :=
  if regex_test (first_char _to)
  then requireResolve _to
  else Ok (path_resolve hst (path_dirname hst from) _to).

(** The resolver as section 4.1 of the specification words it: a
    specifier that begins with [.], [/], a backslash or a drive-style
    prefix (a letter and a colon) is relative to the directory of the
    referencing file, every other one goes to [require.resolve]. *)
Definition spec_is_relative (_to : string) : bool :=
  match _to with
  | String c rest =>
      Ascii.eqb c "." || Ascii.eqb c "/" || Ascii.eqb c (ascii_of_nat 92) ||
      (let n := nat_of_ascii c in
       ((65 <=? n)%nat && (n <=? 90)%nat || (97 <=? n)%nat && (n <=? 122)%nat)
       && String.prefix ":" rest)
  | EmptyString => false
  end.

Definition spec_resolveFilename (_to from : string) : outcome string :=
  if spec_is_relative _to
  then Ok (path_resolve hst (path_dirname hst from) _to)
  else requireResolve _to.

(** ** setupHook: debugMode *)

Definition debugMode : bool :=
  match devMode opts with
  | Some b => b
  | None => bool_decide (node_env hst = Some "development")
  end.

(** ** fetch *)

Definition alloc (o : obj) : M value :=
  fun s => (Ok (VObj (length (heap s))), set_heap (heap s ++ [o]) s).

Definition own_props (h : list obj) (v : value) : obj :=
  match v with
  | VObj r => default [] (h !! r)
  | _ => []
  end.

(** The runner, with the engine's [fetch] as the plugin's callback. The
    tokens of a finished run are a new object. *)
Fixpoint run_pipe (fetch : string -> string -> M value) (p : pipe)
  : M lazyResult :=
  match p with
  | PDone css warnings tokens =>
      do t <- alloc (obj_of_list tokens);
      ret (mkResult css warnings t)
  | PThrow e => throw e
  | PFetch _to from k =>
      do v <- fetch _to from;
      do h <- gets heap;
      run_pipe fetch (k v h)
  end.

Definition readFile (filename : string) : M string :=
  emit (EvReadFile filename);;
  match readFileSync hst filename with
  | Some text => ret text
  | None => throw (ENOENT filename)
  end.

Fixpoint warn_all (warnings : list string) : M unit :=
  match warnings with
  | [] => ret tt
  | text :: rest => emit (EvWarn text);; warn_all rest
  end.

(** [assign(mapKeys(tokens, (value, key) => camelCaseFunc(key)), tokens)] *)
Definition camel_obj (o : obj) : obj :=
  assign (mapKeys (camelCaseFunc hst) o) o.

Definition camel_tokens (tokens : value) : M value :=
  do h <- gets heap;
  alloc (camel_obj (own_props h tokens)).

Definition call_processTokens
    (pt : value -> string -> lazyResult -> list obj -> value * list obj)
    (tokens : value) (filename : string) (lr : lazyResult) : M value :=
  emit (EvProcessTokens filename);;
  do h <- gets heap;
  modify (set_heap (snd (pt tokens filename lr h)));;
  ret (fst (pt tokens filename lr h)).

(** Lines 117-131: from the result of the runner to the final tokens. *)
Definition finish (filename : string) (lazyResult : lazyResult) : M value :=
  warn_all (lr_warnings lazyResult);;
  do tokens <- (if camelCase opts
                then camel_tokens (lr_tokens lazyResult)
                else ret (lr_tokens lazyResult));
  (if processCss opts
   then emit (EvProcessCss (lr_css lazyResult) filename)
   else ret tt);;
  match processTokens opts with
  | Some pt => call_processTokens pt tokens filename lazyResult
  | None => ret tokens
  end.

(** Lines 110-131: from the read of the file to the final tokens. *)
Definition transform (fetch : string -> string -> M value) (filename : string)
  : M value :=
  emit (EvDebugFetch filename FromFs);;
  do raw <- readFile filename;
  emit (EvPreprocess filename);;
  let source := preprocessCss opts raw filename in
  emit (EvProcess filename);;
  do lazyResult <- run_pipe fetch (runner_process hst source filename);
  finish filename lazyResult.

(** Lines 133-139: the cache policy. *)
Definition commit (filename : string) (tokens : value) : M unit :=
  if negb debugMode
  then modify (cache_put filename tokens)
  else modify (require_cache_delete filename).

Fixpoint fetch (fuel : nat) (_to from : string) {struct fuel} : M value :=
  match fuel with
  | O => lift OutOfFuel
  | S fuel' =>
      do filename <- lift (resolveFilename _to from);
      do tokens <- gets (fun s => cache_lookup s filename);
      if truthy tokens then
        emit (EvDebugFetch filename FromCache);;
        emit (EvDebugTokens tokens);;
        ret tokens
      else
        do tokens <- transform (fetch fuel') filename;
        commit filename tokens;;
        emit (EvDebugTokens tokens);;
        ret tokens
  end.

(** ** Plain objects and their prototype *)

(** A member reached through [Object.prototype]: [__proto__] is an
    accessor, whose getter returns the prototype of the receiver; the
    other members are data properties of the host's object. *)
Definition object_prototype_get (receiver_proto : value) (name : key) : value :=
  if decide (name = KStr "__proto__") then receiver_proto
  else prim_prop hst ObjectPrototype name.

(** The lookup of [name] that starts at the object of the store at
    address [r], a plain object whose prototype is [Object.prototype], for
    a receiver whose prototype is [receiver_proto]. *)
Definition object_get (h : list obj) (r : nat) (receiver_proto : value)
    (name : key) : value :=
  match name with
  | KStr k =>
      default (object_prototype_get receiver_proto name)
              (obj_get k (default [] (h !! r)))
  | KSym _ => object_prototype_get receiver_proto name
  end.

(** [o[name]] for an object [o] without an own property [name], whose
    prototype is [pr]: an object of the store, an object of the host, or
    [null]. *)
Definition inherited_get (h : list obj) (pr : value) (name : key) : value :=
  match pr with
  | VObj r => object_get h r pr name
  | VHost _ =>
      if decide (name = KStr "__proto__") then pr else prim_prop hst pr name
  | _ => VUndefined
  end.

(** [o[name]] for a plain object with the own properties [own] and the
    prototype [pr]. *)
Definition plain_get (h : list obj) (own : gmap key value) (pr : value)
    (name : key) : value :=
  match own !! name with
  | Some v => v
  | None => inherited_get h pr name
  end.

(** Whether an assignment to [__proto__] finds the accessor of
    [Object.prototype] on the chain of [pr]. *)
Definition reaches_proto_setter (h : list obj) (pr : value) : bool :=
  match pr with
  | VObj r =>
      match obj_get "__proto__" (default [] (h !! r)) with
      | Some _ => false
      | None => true
      end
  | VHost _ => true
  | _ => false
  end.

Definition is_object_or_null (v : value) : bool :=
  match v with
  | VObj _ | VHost _ | VNull => true
  | _ => false
  end.

(** [o[name] = v] for an extensible plain object: the own properties and
    the prototype afterwards. An own property is updated. Without one, the
    name [__proto__] goes to the setter of [Object.prototype] when the
    chain reaches it (an object or [null] becomes the prototype, another
    value is dropped); every other name becomes an own property, the
    inherited data properties being writable. *)
Definition plain_set (h : list obj) (own : gmap key value) (pr : value)
    (name : key) (v : value) : gmap key value * value :=
  match own !! name with
  | Some _ => (<[name := v]> own, pr)
  | None =>
      if decide (name = KStr "__proto__") then
        if reaches_proto_setter h pr
        then (own, if is_object_or_null v then v else pr)
        else (<[name := v]> own, pr)
      else (<[name := v]> own, pr)
  end.

(** ** fetchProxy *)

Definition fetchProxy (filename : string) : M nat :=
  fun s => (Ok (length (proxies s)),
            set_proxies (proxies s ++ [mkProxy filename ∅]) s).

(** The closure variable [filename] of the traps of proxy [p]. *)
Definition proxy_file (p : nat) : M string :=
  fun s => match proxies s !! p with
           | Some px => (Ok (pfile px), s)
           | None => (Throw (TypeError "not a proxy"), s)
           end.

Definition target_of (s : state) (p : nat) : gmap key value :=
  from_option ptarget ∅ (proxies s !! p).

Definition proto_of (s : state) (p : nat) : value :=
  from_option pproto ObjectPrototype (proxies s !! p).

(** [target[name]] *)
Definition target_read (s : state) (p : nat) (name : key) : value :=
  plain_get (heap s) (target_of s p) (proto_of s p) name.

Definition target_get (p : nat) (name : key) : M value :=
  gets (fun s => target_read s p name).

(** [target[name] = value] *)
Definition set_target (p : nat) (name : key) (v : value) (s : state) : state :=
  set_proxies
    (alter (fun px =>
              mkProxyWith (pfile px)
                (fst (plain_set (heap s) (ptarget px) (pproto px) name v))
                (snd (plain_set (heap s) (ptarget px) (pproto px) name v)))
           p (proxies s)) s.

(** [v[name]] for an arbitrary value [v]: a mapping object answers with
    its own property, else with what it inherits from [Object.prototype]. *)
Definition get_prop (v : value) (name : key) : M value :=
  match v with
  | VUndefined | VNull => throw (TypeError "Cannot read properties of undefined")
  | VObj r => gets (fun s => object_get (heap s) r ObjectPrototype name)
  | _ => ret (prim_prop hst v name)
  end.

(** [typeof name === 'symbol' && String(name) === 'Symbol(util.inspect.custom)'] *)
Definition is_inspect (name : key) : bool :=
  match name with
  | KSym d => String.eqb (symbol_to_string d) "Symbol(util.inspect.custom)"
  | KStr _ => false
  end.

(** The [get] trap. *)
Definition proxy_get (fuel : nat) (p : nat) (name : key) : M value :=
  do filename <- proxy_file p;
  if is_inspect name then
    do c <- target_get p (KStr "cache");
    if truthy c then ret c else
    do t <- gets (fun s => cache_lookup s filename);
    if truthy t then ret t else fetch fuel filename filename
  else
    do own <- target_get p name;
    if truthy own then ret own else
    do c <- target_get p (KStr "cache");
    do cn <- (if truthy c then get_prop c name else ret c);
    if truthy cn then get_prop c name else
    do t <- gets (fun s => cache_lookup s filename);
    if negb (truthy t) then
      do tokens <- fetch fuel filename filename;
      (if debugMode then modify (set_target p (KStr "cache") tokens) else ret tt);;
      get_prop tokens name
    else get_prop t name.


(** ** The extension hook *)

Definition buildExceptionChecker (ig : ignore_option) : string -> value :=
  match ig with
  | IgnoreRegExp test => fun filepath => VBool (test filepath)
  | IgnoreGlob glob => fun filepath => VBool (glob_test hst glob filepath)
  | IgnoreFunction f => f
  | IgnoreUnset => fun filepath => VBool (negb (truthy (VStr filepath)))
  end.

Definition isException : string -> value := buildExceptionChecker (ignore opts).

(** [existingHook(m, filename)]: the arguments are evaluated before the
    call, and [m] is a free identifier of the file. *)
Definition delegate (filename : string) : M unit :=
  match global_m hst with
  | None => throw (ReferenceError "m")
  | Some m =>
      match existingHook hst with
      | None => throw (TypeError "existingHook is not a function")
      | Some handler => emit (EvDelegate m filename);; lift (handler m filename)
      end
  end.

Definition cssModulesHook (module : value) (filename : string) : M unit :=
  if truthy (isException filename) then delegate filename
  else
    do fullFilename <- lift (resolveFilename filename filename);
    emit (EvDebugFetch filename FromRequire);;
    do ccc <- fetchProxy fullFilename;
    modify (require_cache_put (filename +:+ ".proxy") (CProxy ccc));;
    emit (EvCompile fullFilename filename).

End Engine.

Arguments debugMode : simpl never.

(** Number of runs of the postcss runner over [filename] so far. *)
Definition runs (filename : string) (s : state) : nat :=
  length (filter (fun e => e = EvProcess filename) (trace s)).

(** Number of cache-miss passes of [fetch] over [filename] so far. *)
Definition fetches (filename : string) (s : state) : nat :=
  length (filter (fun e => e = EvDebugFetch filename FromFs) (trace s)).




(** The state at the call of the runner in a pass of [fetch] over
    [filename] that started in [s]. *)
Definition at_runner (filename : string) (s : state) : state :=
  log (EvProcess filename)
    (log (EvPreprocess filename)
       (log (EvReadFile filename)
          (log (EvDebugFetch filename FromFs) s))).

(** A computation keeps a relation between the store before and the store
    after, whatever its outcome. *)
Definition keeps (R : state -> state -> Prop) {A} (m : M A) : Prop :=
  forall s, R s (snd (m s)).

(** Relations between the store before and after a computation. *)
Definition same_cache (s s' : state) : Prop :=
  tokensByFile s' = tokensByFile s.

Definition runs_grow (filename : string) (s s' : state) : Prop :=
  runs filename s <= runs filename s'.


(** The tokens handed to [processTokens] (or returned, without it) and the
    store of objects at that point, from the result of the runner and the
    store [h] it left: line 122. *)
Definition augmented (opts : options) (hst : host) (lr : lazyResult)
    (h : list obj) : value * list obj :=
  if camelCase opts
  then (VObj (List.length h),
        (h ++ [camel_obj hst (own_props h (lr_tokens lr))])%list)
  else (lr_tokens lr, h).

(** The own properties of that mapping. *)
Definition augmented_props (opts : options) (hst : host) (lr : lazyResult)
    (h : list obj) : obj :=
  own_props (snd (augmented opts hst lr h)) (fst (augmented opts hst lr h)).

(** [v] is a value that [pt] has returned; every mapping of the token
    cache is such a value. *)
Definition produced_by
    (pt : value -> string -> lazyResult -> list obj -> value * list obj)
    (v : value) : Prop :=
  exists input filename lr h, v = fst (pt input filename lr h).

Definition cache_produced
    (pt : value -> string -> lazyResult -> list obj -> value * list obj)
    (s : state) : Prop :=
  forall f v, tokensByFile s !! f = Some v -> truthy v = true -> produced_by pt v.

(** ** A small installation used for the concrete runs *)

Module Demo.

(** The part of a path before its last slash. *)
Fixpoint before_last_slash (s : string) : option string :=
  match s with
  | EmptyString => None
  | String c s' =>
      match before_last_slash s' with
      | Some d => Some (String c d)
      | None => if Ascii.eqb c "/" then Some EmptyString else None
      end
  end.

Definition dirname (s : string) : string :=
  match before_last_slash s with
  | Some EmptyString => "/"
  | Some d => d
  | None => "."
  end.

(** [path.resolve] on an absolute path, on [./name] and on [name]. *)
Definition resolve (dir _to : string) : string :=
  if String.prefix "/" _to then _to
  else if String.prefix "./" _to
       then dir +:+ "/" +:+ String.substring 2 (String.length _to - 2) _to
       else dir +:+ "/" +:+ _to.

Definition files (path : string) : option string :=
  if String.eqb path "/app/a.css" then Some ".foo { color: red }"
  else if String.eqb path "/app/b.css"
       then Some ".b { composes: foo from './a.css'; composes: c from './c.css' }"
  else if String.eqb path "/app/dup.css" then Some ".foo-bar {} .foo_bar {}"
  else None.

(** [b.css] asks for [./a.css], then for the missing [./c.css]. *)
Definition runner (source filename : string) : pipe :=
  if String.eqb filename "/app/b.css" then
    PFetch "./a.css" filename (fun _ _ =>
    PFetch "./c.css" filename (fun _ _ =>
    PDone source [] [("b", VStr "_app_b__b")]))
  else if String.eqb filename "/app/dup.css" then
    PDone source [] [("foo-bar", VStr "a"); ("foo_bar", VStr "b");
                     ("baz-qux", VStr "c")]
  else PDone source [] [("foo", VStr "x")].

(** lodash [camelCase] at the class names of the files above. *)
Definition camel (k : string) : string :=
  if String.eqb k "foo-bar" then "fooBar"
  else if String.eqb k "foo_bar" then "fooBar"
  else if String.eqb k "baz-qux" then "bazQux"
  else k.

(** The members of [Object.prototype]: functions of the host. *)
Definition object_members : list string :=
  ["constructor"; "hasOwnProperty"; "isPrototypeOf"; "propertyIsEnumerable";
   "toLocaleString"; "toString"; "valueOf"; "__defineGetter__";
   "__defineSetter__"; "__lookupGetter__"; "__lookupSetter__"].

Definition host_prop (v : value) (name : key) : value :=
  match v, name with
  | VHost 0, KStr k =>
      from_option (fun found => VHost (S (fst found))) VUndefined
                  (list_find (fun m => m = k) object_members)
  | _, _ => VUndefined
  end.

Definition the_host : host :=
  mkHost None (fun spec => Some ("/node_modules/" +:+ spec))
         resolve dirname files runner camel (fun _ _ => false)
         (Some (fun _ _ => Ok tt)) None host_prop.

Definition config (dev camelCase : bool)
    (pt : option (value -> string -> lazyResult -> list obj -> value * list obj))
  : options :=
  mkOptions (Some dev) (IgnoreFunction (fun f => VBool (String.eqb f "/app/plain.css")))
            (fun raw _ => raw) false pt camelCase.


(** ASCII upper case, for a [processTokens] that upper-cases the values. *)
Definition upper_char (c : ascii) : ascii :=
  let n := nat_of_ascii c in
  if (97 <=? n)%nat && (n <=? 122)%nat then ascii_of_nat (n - 32) else c.

Fixpoint upper (s : string) : string :=
  match s with
  | EmptyString => EmptyString
  | String c s' => String (upper_char c) (upper s')
  end.

Definition upper_value (v : value) : value :=
  match v with
  | VStr s => VStr (upper s)
  | _ => v
  end.

Definition all_upper (v : value) : Prop :=
  match v with
  | VStr s => upper s = s
  | _ => True
  end.

(** [tokens => mapValues(tokens, v => v.toUpperCase())] *)
Definition upper_tokens (tokens : value) (_ : string) (_ : lazyResult)
    (h : list obj) : value * list obj :=
  (VObj (List.length h),
   (h ++ [map (fun kv => (fst kv, upper_value (snd kv))) (own_props h tokens)])%list).

Definition start : state := init_state ∅ [].

(** A store in which the module loader has an entry for [a.css]. *)
Definition loaded : state := init_state {[ "/app/a.css" := CModule ]} [].

Definition normal : options := config false false None.
Definition dev : options := config true false None.

Definition normal_fetch : outcome value * state :=
  fetch normal the_host 2 "/app/a.css" "/app/a.css" start.

Definition dev_fetch : outcome value * state :=
  fetch dev the_host 2 "/app/a.css" "/app/a.css" start.

(** Normal mode with a [processTokens] that upper-cases the values. *)
Definition upper_fetch : outcome value * state :=
  fetch (config false false (Some upper_tokens)) the_host 1
        "/app/a.css" "/app/a.css" start.

(** After [require('/app/a.css')] has made proxy 0. *)
Definition with_proxy : state := snd (fetchProxy "/app/a.css" start).

(** Live-reload mode: two reads of [bar], a class that [a.css] has not. *)
Definition first_read : outcome value * state :=
  proxy_get dev the_host 2 0 (KStr "bar") with_proxy.

Definition second_read : outcome value * state :=
  proxy_get dev the_host 2 0 (KStr "bar") (snd first_read).


(** [dup.css] with camel-cased keys. *)
Definition camel_fetch : outcome value * state :=
  fetch (config false true None) the_host 1 "/app/dup.css" "/app/dup.css" start.

End Demo.

(** ** The proxy that the compiled module exports *)

(** A plain object: its own properties and its prototype. *)
Record plain := mkPlain {
  plain_own : gmap key value;
  plain_proto : value;
}.

Section Exports.

Variable opts : options.
Variable hst : host.

(** [String(v)] for a value that is not a string, and the property lookup
    on a module of [require.cache]: both are the host's. *)
Variable toString : value -> string.
Variable module_prop : string -> key -> value.

(** [`${v}`] *)
Definition template (v : value) : string :=
  match v with
  | VStr s => s
  | _ => toString v
  end.

(** The target of [new Proxy({filename: ...}, ...)]: a plain object. *)
Definition compiled_exports (fullFilename : string) : plain :=
  mkPlain {[ KStr "filename" := VStr fullFilename ]} ObjectPrototype.

(** [target[name]] *)
Definition export_read (h : list obj) (target : plain) (name : key) : value :=
  plain_get hst h (plain_own target) (plain_proto target) name.

(** [`${target.filename}.proxy`] *)
Definition proxy_key (h : list obj) (target : plain) : string :=
  template (export_read h target (KStr "filename")) +:+ ".proxy".

(** The [get] trap of the exported proxy (lines 208-213). *)
Definition export_get (fuel : nat) (target : plain) (name : key) : M value :=
  if decide (name = KStr "__esModule")
  then gets (fun s => export_read (heap s) target (KStr "__esModule"))
  else
    do k <- gets (fun s => proxy_key (heap s) target);
    do entry <- gets (fun s => requireCache s !! k);
    match entry with
    | None => throw (TypeError "Cannot read properties of undefined")
    | Some CModule => ret (module_prop k name)
    | Some (CProxy p) => proxy_get opts hst fuel p name
    end.

(** The exported proxy has no [set] trap: an assignment goes to its
    target. *)
Definition export_set (h : list obj) (target : plain) (name : key) (v : value)
  : plain :=
  mkPlain (fst (plain_set h (plain_own target) (plain_proto target) name v))
          (snd (plain_set h (plain_own target) (plain_proto target) name v)).

End Exports.

(** ** The installation of the hook *)

(** What [require.extensions[extension]] is: [undefined], a handler of the
    host, or a [cssModulesHook] with the [existingHook] that it closes
    over. *)
Inductive handler :=
| NoHandler
| HostHandler (id : nat)
| CssModulesHook (existingHook : handler).

(** [require.extensions[extension]] *)
Definition handler_of (registry : gmap string handler) (extension : string)
  : handler :=
  default NoHandler (registry !! extension).

(** The [extensions] option: a string or an array of strings. *)
Inductive extensions_value :=
| ExtString (s : string)
| ExtArray (l : list string).

Definition toArray (option : extensions_value) : list string :=
  match option with
  | ExtArray l => l
  | ExtString s => [s]
  end.

(** [extensions = '.css'] in the parameter list. *)
Definition extensions_or_default (o : option extensions_value) : extensions_value :=
  default (ExtString ".css") o.

(** [exts.forEach(extension => ...)] (lines 190-220). *)
Definition install (exts : list string) (registry : gmap string handler)
  : gmap string handler :=
  fold_left
    (fun reg extension =>
       <[extension := CssModulesHook (handler_of reg extension)]> reg)
    exts registry.

Definition setup_extensions (o : option extensions_value)
    (registry : gmap string handler) : gmap string handler :=
  install (toArray (extensions_or_default o)) registry.

(** ** Counting events *)

Definition occurrences (e : event) (s : state) : nat :=
  length (filter (fun e' => e' = e) (trace s)).


(** The events of a pass of [fetch] over [g] that misses the cache, up to
    the call of the runner. *)
Definition transform_events (g : string) : list event :=
  [EvDebugFetch g FromFs; EvReadFile g; EvPreprocess g; EvProcess g].

(** The events between the return of the runner and the return of
    [fetch], oldest first. *)
Definition finish_events (opts : options) (filename : string) (lr : lazyResult)
    (tokens : value) : list event :=
  (map EvWarn (lr_warnings lr) ++
   (if processCss opts then [EvProcessCss (lr_css lr) filename] else []) ++
   (match processTokens opts with
    | Some _ => [EvProcessTokens filename]
    | None => []
    end) ++
   [EvDebugTokens tokens])%list.

(** While [g] has a mapping in the token cache, the entry stays and no
    pass over [g] starts. *)
Definition settled (g : string) (s s' : state) : Prop :=
  truthy (cache_lookup s g) = true ->
  cache_lookup s' g = cache_lookup s g /\
  forall e, e ∈ transform_events g -> occurrences e s' = occurrences e s.

(** Nothing but the log and the snapshots of proxies differs. *)
Definition quiet (s s' : state) : Prop :=
  tokensByFile s' = tokensByFile s /\ requireCache s' = requireCache s /\
  heap s' = heap s /\
  forall f, runs f s' = runs f s /\ fetches f s' = fetches f s /\
            occurrences (EvReadFile f) s' = occurrences (EvReadFile f) s.

Definition cached_quiet (g : string) (s s' : state) : Prop :=
  truthy (cache_lookup s g) = true -> quiet s s'.

(** ** More installations for the concrete runs *)

Module Cases.

(** [loop.css] refers to itself; [ping.css] and [pong.css] to each other. *)
Definition files (path : string) : option string :=
  if String.eqb path "/app/warn.css" then Some ".w {}"
  else if String.eqb path "/app/loop.css" then Some ".l { composes: x from './loop.css' }"
  else if String.eqb path "/app/ping.css" then Some ".p { composes: x from './pong.css' }"
  else if String.eqb path "/app/pong.css" then Some ".q { composes: x from './ping.css' }"
  else Demo.files path.

Definition runner (source filename : string) : pipe :=
  if String.eqb filename "/app/loop.css" then
    PFetch "./loop.css" filename (fun _ _ => PDone source [] [("l", VStr "_l")])
  else if String.eqb filename "/app/ping.css" then
    PFetch "./pong.css" filename (fun _ _ => PDone source [] [("p", VStr "_p")])
  else if String.eqb filename "/app/pong.css" then
    PFetch "./ping.css" filename (fun _ _ => PDone source [] [("q", VStr "_q")])
  else if String.eqb filename "/app/warn.css" then
    PDone "css" ["first"; "second"] [("w", VStr "_w")]
  else Demo.runner source filename.

Definition cyclic_host : host :=
  mkHost None (fun spec => Some ("/node_modules/" +:+ spec))
         Demo.resolve Demo.dirname files runner Demo.camel (fun _ _ => false)
         (Some (fun _ _ => Ok tt)) None Demo.host_prop.

(** A host in which no package can be resolved. *)
Definition bare_host : host :=
  mkHost None (fun _ => None)
         Demo.resolve Demo.dirname Demo.files Demo.runner Demo.camel
         (fun _ _ => false) None None Demo.host_prop.


(** A [processTokens] used for its effect only: it returns nothing. *)
Definition forgetful (_ : value) (_ : string) (_ : lazyResult) (h : list obj)
  : value * list obj := (VUndefined, h).

Definition forgetful_config : options :=
  Demo.config false false (Some forgetful).

Definition forgetful_fetch : outcome value * state :=
  fetch forgetful_config Demo.the_host 1 "/app/a.css" "/app/a.css" Demo.start.

(** [a.css] loaded through the hook, in live-reload and in normal mode. *)
Definition hooked (o : options) : state :=
  snd (cssModulesHook o Demo.the_host (VObj 7) "/app/a.css" Demo.start).

(** ... and read once through the proxy. *)
Definition read_foo (o : options) : outcome value * state :=
  proxy_get o Demo.the_host 2 0 (KStr "foo") (hooked o).

(** Every option of the last steps set. *)
Definition full_config : options :=
  mkOptions (Some false) IgnoreUnset (fun raw _ => raw) true
            (Some Demo.upper_tokens) false.

Definition warn_fetch : outcome value * state :=
  fetch full_config cyclic_host 1 "/app/warn.css" "/app/warn.css" Demo.start.

Definition registry : gmap string handler :=
  {[ ".js" := HostHandler 0; ".json" := HostHandler 1 ]}.

(** A store with the object [{__esModule: true}] at address 0. *)
Definition flagged : state :=
  set_heap [[("__esModule", VBool true)]] Demo.start.

Definition js_string (v : value) : string :=
  match v with
  | VUndefined => "undefined"
  | VNull => "null"
  | VBool true => "true"
  | VBool false => "false"
  | _ => "[object Object]"
  end.

End Cases.

(** * Properties *)

(** ** The monad *)

Lemma bind_Ok {A B} (m : M A) (f : A -> M B) s b s' :
  bind m f s = (Ok b, s') ->
  exists a s1, m s = (Ok a, s1) /\ f a s1 = (Ok b, s').
Proof.
  unfold bind. destruct (m s) as [[a|e|] s1]; intros H; try discriminate.
  exists a, s1. split; [reflexivity | exact H].
Qed.

(** ** Relations that every step of a computation keeps *)

Section Keeps.

Variable R : state -> state -> Prop.
Hypothesis R_refl : forall s, R s s.
Hypothesis R_trans : forall s1 s2 s3, R s1 s2 -> R s2 s3 -> R s1 s3.

Lemma keeps_ret {A} (a : A) : keeps R (ret a).
Proof. intros s. apply R_refl. Qed.

Lemma keeps_throw {A} e : keeps R (@throw A e).
Proof. intros s. apply R_refl. Qed.

Lemma keeps_lift {A} (o : outcome A) : keeps R (lift o).
Proof. intros s. apply R_refl. Qed.

Lemma keeps_gets {A} (f : state -> A) : keeps R (gets f).
Proof. intros s. apply R_refl. Qed.

Lemma keeps_modify f : (forall s, R s (f s)) -> keeps R (modify f).
Proof. intros H s. apply H. Qed.

Lemma keeps_bind {A B} (m : M A) (f : A -> M B) :
  keeps R m -> (forall a, keeps R (f a)) -> keeps R (bind m f).
Proof.
  intros Hm Hf s. unfold bind. specialize (Hm s).
  destruct (m s) as [[a|e|] s1]; simpl in *; try exact Hm.
  eapply R_trans; [exact Hm | apply Hf].
Qed.

Lemma keeps_if {A} (b : bool) (m1 m2 : M A) :
  keeps R m1 -> keeps R m2 -> keeps R (if b then m1 else m2).
Proof. destruct b; auto. Qed.

Hypothesis R_log : forall e s, R s (log e s).
Hypothesis R_heap : forall h s, R s (set_heap h s).

Lemma keeps_emit e : keeps R (emit e).
Proof. apply keeps_modify. intros s. apply R_log. Qed.

Lemma keeps_alloc o : keeps R (alloc o).
Proof. intros s. apply R_heap. Qed.

Lemma keeps_warn_all ws : keeps R (warn_all ws).
Proof.
  induction ws as [|w ws IH]; simpl.
  - apply keeps_ret.
  - apply keeps_bind; [apply keeps_emit | intros _; exact IH].
Qed.

Lemma keeps_readFile hst filename : keeps R (readFile hst filename).
Proof.
  unfold readFile. apply keeps_bind; [apply keeps_emit | intros _].
  destruct (readFileSync hst filename); [apply keeps_ret | apply keeps_throw].
Qed.

Lemma keeps_run_pipe fetch p :
  (forall t f, keeps R (fetch t f)) -> keeps R (run_pipe fetch p).
Proof.
  intros Hf. induction p as [css ws toks | e | t f k IH]; simpl.
  - apply keeps_bind; [apply keeps_alloc | intros; apply keeps_ret].
  - apply keeps_throw.
  - apply keeps_bind; [apply Hf | intros v].
    apply keeps_bind; [apply keeps_gets | intros h; apply IH].
Qed.

(** What follows the run of the pipeline in [transform]. *)
Lemma keeps_camel_tokens hst v : keeps R (camel_tokens hst v).
Proof.
  unfold camel_tokens. apply keeps_bind; [apply keeps_gets | intros; apply keeps_alloc].
Qed.

Lemma keeps_call_processTokens pt tokens filename lr :
  keeps R (call_processTokens pt tokens filename lr).
Proof.
  unfold call_processTokens.
  apply keeps_bind; [apply keeps_emit | intros _].
  apply keeps_bind; [apply keeps_gets | intros h].
  apply keeps_bind; [apply keeps_modify; intros; apply R_heap | intros _].
  apply keeps_ret.
Qed.

Lemma keeps_finish opts hst filename lr : keeps R (finish opts hst filename lr).
Proof.
  unfold finish.
  apply keeps_bind; [apply keeps_warn_all | intros _].
  apply keeps_bind;
    [apply keeps_if; [apply keeps_camel_tokens | apply keeps_ret] | intros tokens].
  apply keeps_bind; [apply keeps_if; [apply keeps_emit | apply keeps_ret] | intros _].
  destruct (processTokens opts);
    [apply keeps_call_processTokens | apply keeps_ret].
Qed.

Lemma keeps_transform opts hst fetch filename :
  (forall source, keeps R (run_pipe fetch (runner_process hst source filename))) ->
  keeps R (transform opts hst fetch filename).
Proof.
  intros Hp. unfold transform.
  apply keeps_bind; [apply keeps_emit | intros _].
  apply keeps_bind; [apply keeps_readFile | intros raw].
  apply keeps_bind; [apply keeps_emit | intros _].
  apply keeps_bind; [apply keeps_emit | intros _].
  apply keeps_bind; [apply Hp | intros lr; apply keeps_finish].
Qed.

(** A relation that also survives the cache policy of the current mode
    survives every [fetch]. *)
Lemma keeps_fetch opts hst :
  (forall filename tokens, keeps R (commit opts hst filename tokens)) ->
  forall fuel _to from, keeps R (fetch opts hst fuel _to from).
Proof.
  intros Hc. induction fuel as [|fuel IH]; intros _to from; simpl.
  - apply keeps_lift.
  - apply keeps_bind; [apply keeps_lift | intros filename].
    apply keeps_bind; [apply keeps_gets | intros cached].
    apply keeps_if.
    + apply keeps_bind; [apply keeps_emit | intros _].
      apply keeps_bind; [apply keeps_emit | intros _; apply keeps_ret].
    + apply keeps_bind.
      * apply keeps_transform. intros source. apply keeps_run_pipe, IH.
      * intros tokens.
        apply keeps_bind; [apply Hc | intros _].
        apply keeps_bind; [apply keeps_emit | intros _; apply keeps_ret].
Qed.

End Keeps.

(** ** resolveFilename *)

Lemma regex_test_undefined : regex_test "undefined" = true.
Proof. reflexivity. Qed.

Lemma regex_test_single c : regex_test (String c EmptyString) = negb (is_excluded c).
Proof. simpl. apply orb_false_r. Qed.

(** C9, as amended: the first character decides. A specifier that begins
    with a backslash, a slash, [?], [%], [*], [:], [|], a double quote,
    [<], [>] or a dot is resolved against the directory of the referencing
    file; every other specifier, the empty one and one with a drive letter
    included, goes through [require.resolve]. *)
Theorem resolveFilename_by_first_char hst _to from :
  resolveFilename hst _to from =
    match _to with
    | String c _ =>
        if is_excluded c
        then Ok (path_resolve hst (path_dirname hst from) _to)
        else requireResolve hst _to
    | EmptyString => requireResolve hst _to
    end.
Proof.
  unfold resolveFilename. destruct _to as [|c rest].
  - cbn [first_char]. rewrite regex_test_undefined. reflexivity.
  - cbn [first_char]. rewrite regex_test_single.
    destruct (is_excluded c); reflexivity.
Qed.

(** C9 as the specification states it fails: [%x.css] begins with none of
    the markers it lists, and is resolved against the directory of the
    referencing file; [C:/x.css] has a drive-style prefix, and goes through
    [require.resolve]. *)
Lemma resolveFilename_differs_from_spec :
  resolveFilename Demo.the_host "%x.css" "/app/a.css" = Ok "/app/%x.css" /\
  spec_resolveFilename Demo.the_host "%x.css" "/app/a.css"
    = requireResolve Demo.the_host "%x.css" /\
  resolveFilename Demo.the_host "%x.css" "/app/a.css"
    <> spec_resolveFilename Demo.the_host "%x.css" "/app/a.css" /\
  resolveFilename Demo.the_host "C:/x.css" "/app/a.css"
    = requireResolve Demo.the_host "C:/x.css" /\
  resolveFilename Demo.the_host "C:/x.css" "/app/a.css"
    <> spec_resolveFilename Demo.the_host "C:/x.css" "/app/a.css".
Proof.
  repeat split; try reflexivity; vm_compute; discriminate.
Qed.

(** ** The extension hook on an ignored file *)

(** C1: on a file that the ignore predicate matches, the hook evaluates
    [existingHook(m, filename)]. With no global [m] the evaluation of the
    argument throws a [ReferenceError]: the previous handler is not called
    and nothing else happens. *)
Theorem cssModulesHook_ignored_throws opts hst module filename s :
  truthy (isException opts hst filename) = true ->
  global_m hst = None ->
  cssModulesHook opts hst module filename s = (Throw (ReferenceError "m"), s).
Proof.
  intros Hig Hm. unfold cssModulesHook, delegate. rewrite Hig, Hm. reflexivity.
Qed.

Lemma cssModulesHook_ignored_throws_witness :
  cssModulesHook (Demo.config false false None) Demo.the_host (VObj 7)
                 "/app/plain.css" Demo.start
  = (Throw (ReferenceError "m"), Demo.start).
Proof.
  apply cssModulesHook_ignored_throws; reflexivity.
Defined.

(** With a global [m], the previous handler is called with that value, and
    not with the module the hook received. *)
Lemma cssModulesHook_ignored_global_m opts hst module filename s g handler :
  truthy (isException opts hst filename) = true ->
  global_m hst = Some g ->
  existingHook hst = Some handler ->
  cssModulesHook opts hst module filename s
  = (handler g filename, log (EvDelegate g filename) s).
Proof.
  intros Hig Hm Hh. unfold cssModulesHook, delegate. rewrite Hig, Hm, Hh.
  unfold bind, emit, modify, lift. destruct (handler g filename); reflexivity.
Qed.

(** The file of an ignored path is neither read nor given to the runner. *)
Lemma cssModulesHook_ignored_no_pipeline opts hst module filename s f :
  truthy (isException opts hst filename) = true ->
  let s' := snd (cssModulesHook opts hst module filename s) in
  runs f s' = runs f s /\ fetches f s' = fetches f s /\
  tokensByFile s' = tokensByFile s.
Proof.
  intros Hig. unfold cssModulesHook, delegate. rewrite Hig.
  destruct (global_m hst) as [g|]; [|simpl; auto].
  destruct (existingHook hst) as [handler|]; [|simpl; auto].
  unfold bind, emit, modify, lift. simpl.
  destruct (handler g filename); simpl; auto.
Qed.

(** ** The traps of the proxy *)

Lemma plain_set_own h own pr name v :
  name <> KStr "__proto__" ->
  plain_set h own pr name v = (<[name := v]> own, pr).
Proof.
  intros Hname. unfold plain_set. destruct (own !! name); [reflexivity|].
  destruct (decide (name = KStr "__proto__")); [contradiction|reflexivity].
Qed.

Lemma proxies_set_target s p name v px :
  proxies s !! p = Some px ->
  name <> KStr "__proto__" ->
  proxies (set_target p name v s) !! p
  = Some (mkProxyWith (pfile px) (<[name := v]> (ptarget px)) (pproto px)).
Proof.
  intros Hp Hname. unfold set_target. simpl.
  rewrite list_lookup_alter_eq, Hp. simpl.
  rewrite (plain_set_own _ _ _ _ _ Hname). reflexivity.
Qed.

Lemma target_of_set_target s p name v px :
  proxies s !! p = Some px ->
  name <> KStr "__proto__" ->
  target_of (set_target p name v s) p !! name = Some v.
Proof.
  intros Hp Hname. unfold target_of.
  rewrite (proxies_set_target s p name v px Hp Hname). simpl.
  apply lookup_insert_eq.
Qed.

Lemma target_read_set_target hst s p name v px :
  proxies s !! p = Some px ->
  name <> KStr "__proto__" ->
  target_read hst (set_target p name v s) p name = v.
Proof.
  intros Hp Hname. unfold target_read, plain_get.
  rewrite (target_of_set_target s p name v px Hp Hname). reflexivity.
Qed.





(** ** Equations of [fetch] *)

Lemma commit_eq opts hst filename tokens s :
  commit opts hst filename tokens s =
    (Ok tt, if debugMode opts hst
            then require_cache_delete filename s
            else cache_put filename tokens s).
Proof. unfold commit. destruct (debugMode opts hst); reflexivity. Qed.

Lemma transform_eq opts hst fch filename s :
  transform opts hst fch filename s =
    match readFileSync hst filename with
    | None =>
        (Throw (ENOENT filename),
         log (EvReadFile filename) (log (EvDebugFetch filename FromFs) s))
    | Some raw =>
        bind (run_pipe fch (runner_process hst (preprocessCss opts raw filename)
                                           filename))
             (finish opts hst filename) (at_runner filename s)
    end.
Proof.
  unfold transform, readFile, bind, emit, modify, at_runner.
  destruct (readFileSync hst filename); reflexivity.
Qed.

Lemma fetch_S opts hst n _to from s :
  fetch opts hst (S n) _to from s =
    match resolveFilename hst _to from with
    | Ok filename =>
        if truthy (cache_lookup s filename)
        then (Ok (cache_lookup s filename),
              log (EvDebugTokens (cache_lookup s filename))
                  (log (EvDebugFetch filename FromCache) s))
        else match transform opts hst (fetch opts hst n) filename s with
             | (Ok tokens, s1) =>
                 (Ok tokens,
                  log (EvDebugTokens tokens)
                      (snd (commit opts hst filename tokens s1)))
             | (Throw e, s1) => (Throw e, s1)
             | (OutOfFuel, s1) => (OutOfFuel, s1)
             end
    | Throw e => (Throw e, s)
    | OutOfFuel => (OutOfFuel, s)
    end.
Proof.
  cbn [fetch]. unfold bind at 1. unfold lift.
  destruct (resolveFilename hst _to from) as [filename|e|]; try reflexivity.
  unfold bind at 1. unfold gets at 1.
  destruct (truthy (cache_lookup s filename)); [reflexivity|].
  unfold bind at 1.
  destruct (transform opts hst (fetch opts hst n) filename s) as [[tokens|e|] s1];
    try reflexivity.
  unfold bind at 1. rewrite !commit_eq. reflexivity.
Qed.

(** ** Counting the runs of the runner *)

Lemma runs_log f e s :
  runs f (log e s) = if decide (e = EvProcess f) then S (runs f s) else runs f s.
Proof.
  unfold runs, log. cbn [trace]. rewrite filter_cons.
  destruct (decide (e = EvProcess f)); reflexivity.
Qed.

Lemma runs_at_runner f s : runs f (at_runner f s) = S (runs f s).
Proof.
  unfold at_runner. rewrite !runs_log.
  rewrite decide_True by reflexivity.
  repeat (rewrite decide_False by discriminate). reflexivity.
Qed.

Lemma runs_grow_refl f s : runs_grow f s s.
Proof. unfold runs_grow. lia. Qed.

Lemma runs_grow_trans f s1 s2 s3 :
  runs_grow f s1 s2 -> runs_grow f s2 s3 -> runs_grow f s1 s3.
Proof. unfold runs_grow. lia. Qed.

Lemma runs_grow_log f e s : runs_grow f s (log e s).
Proof. unfold runs_grow. rewrite runs_log. destruct (decide _); lia. Qed.

Lemma runs_grow_heap f h s : runs_grow f s (set_heap h s).
Proof. unfold runs_grow, runs. simpl. lia. Qed.

Lemma runs_grow_commit f opts hst filename tokens :
  keeps (runs_grow f) (commit opts hst filename tokens).
Proof.
  intros s. rewrite commit_eq. cbn [snd].
  destruct (debugMode opts hst); unfold runs_grow, runs; simpl; lia.
Qed.

Lemma runs_grow_fetch f opts hst fuel _to from :
  keeps (runs_grow f) (fetch opts hst fuel _to from).
Proof.
  apply keeps_fetch;
    eauto using runs_grow_refl, runs_grow_trans, runs_grow_log, runs_grow_heap,
                runs_grow_commit.
Qed.

(** A pass over a readable file calls the runner, whatever comes next. *)
Lemma transform_runs opts hst fuel filename raw s :
  readFileSync hst filename = Some raw ->
  runs filename s
  < runs filename (snd (transform opts hst (fetch opts hst fuel) filename s)).
Proof.
  intros Hraw. rewrite transform_eq, Hraw.
  assert (H : keeps (runs_grow filename)
                (bind (run_pipe (fetch opts hst fuel)
                         (runner_process hst (preprocessCss opts raw filename)
                                         filename))
                      (finish opts hst filename))).
  { apply keeps_bind; eauto using runs_grow_trans.
    - apply keeps_run_pipe;
        eauto using runs_grow_refl, runs_grow_trans, runs_grow_heap,
                    runs_grow_fetch.
    - intros lr. apply keeps_finish;
        eauto using runs_grow_refl, runs_grow_trans, runs_grow_log, runs_grow_heap. }
  specialize (H (at_runner filename s)). unfold runs_grow in H.
  rewrite runs_at_runner in H. lia.
Qed.

(** ** Live-reload mode *)

Lemma same_cache_refl s : same_cache s s.
Proof. reflexivity. Qed.

Lemma same_cache_trans s1 s2 s3 :
  same_cache s1 s2 -> same_cache s2 s3 -> same_cache s1 s3.
Proof. unfold same_cache. congruence. Qed.

Lemma fetch_dev_same_cache opts hst fuel _to from :
  debugMode opts hst = true ->
  keeps same_cache (fetch opts hst fuel _to from).
Proof.
  intros Hdev. apply keeps_fetch;
    eauto using same_cache_refl, same_cache_trans.
  - intros e s. reflexivity.
  - intros h s. reflexivity.
  - intros filename tokens s. rewrite commit_eq, Hdev. reflexivity.
Qed.

(** C10: in live-reload mode no [fetch], whatever its outcome, changes the
    token cache; one that returns after a cache miss has deleted the entry
    of the file from [require.cache]. *)
Theorem fetch_dev_never_caches opts hst fuel _to from s :
  debugMode opts hst = true ->
  tokensByFile (snd (fetch opts hst fuel _to from s)) = tokensByFile s /\
  forall tokens filename,
    fst (fetch opts hst fuel _to from s) = Ok tokens ->
    resolveFilename hst _to from = Ok filename ->
    truthy (cache_lookup s filename) = false ->
    requireCache (snd (fetch opts hst fuel _to from s)) !! filename = None.
Proof.
  intros Hdev. split.
  - apply (fetch_dev_same_cache opts hst fuel _to from Hdev s).
  - intros tokens filename Hok Hres Hmiss.
    destruct fuel as [|n]; [discriminate|].
    rewrite fetch_S, Hres, Hmiss in Hok |- *.
    destruct (transform opts hst (fetch opts hst n) filename s) as [[t|e|] s1];
      try discriminate.
    rewrite commit_eq, Hdev. cbn. apply lookup_delete_eq.
Qed.

Lemma fetch_dev_never_caches_witness :
  tokensByFile (snd (fetch (Demo.config true false None) Demo.the_host 2
                       "/app/a.css" "/app/a.css" Demo.loaded))
  = tokensByFile Demo.loaded /\
  requireCache Demo.loaded !! "/app/a.css" = Some CModule /\
  requireCache (snd (fetch (Demo.config true false None) Demo.the_host 2
                       "/app/a.css" "/app/a.css" Demo.loaded))
    !! "/app/a.css" = None.
Proof.
  destruct (fetch_dev_never_caches (Demo.config true false None) Demo.the_host 2
              "/app/a.css" "/app/a.css" Demo.loaded) as [H1 H2];
    [reflexivity|].
  split; [exact H1 | split; [reflexivity|]].
  apply (H2 (VObj 0)); reflexivity.
Defined.

(** C3: in live-reload mode, after a [fetch] of a file has returned, the
    token cache has no entry for its path, and the next [fetch] of the same
    file calls the runner again. (The token cache starts empty and stays so
    in this mode.) *)
Theorem fetch_dev_twice_runs_twice opts hst n m _to from filename s tokens s1 :
  debugMode opts hst = true ->
  tokensByFile s !! filename = None ->
  resolveFilename hst _to from = Ok filename ->
  fetch opts hst n _to from s = (Ok tokens, s1) ->
  tokensByFile s1 !! filename = None /\
  tokensByFile (snd (fetch opts hst (S m) _to from s1)) !! filename = None /\
  runs filename s < runs filename s1 /\
  runs filename s1 < runs filename (snd (fetch opts hst (S m) _to from s1)).
Proof.
  intros Hdev Hnone Hres Hfetch.
  assert (Hc1 : tokensByFile s1 = tokensByFile s).
  { pose proof (fetch_dev_same_cache opts hst n _to from Hdev s) as H.
    rewrite Hfetch in H. exact H. }
  assert (Hc2 : tokensByFile (snd (fetch opts hst (S m) _to from s1))
                = tokensByFile s1)
    by apply (fetch_dev_same_cache opts hst (S m) _to from Hdev s1).
  assert (Hmiss1 : truthy (cache_lookup s filename) = false)
    by (unfold cache_lookup; rewrite Hnone; reflexivity).
  assert (Hmiss2 : truthy (cache_lookup s1 filename) = false)
    by (unfold cache_lookup; rewrite Hc1, Hnone; reflexivity).
  destruct n as [|n]; [discriminate|].
  rewrite fetch_S, Hres, Hmiss1, transform_eq in Hfetch.
  destruct (readFileSync hst filename) as [raw|] eqn:Hraw; [|discriminate].
  split; [rewrite Hc1; exact Hnone|].
  split; [rewrite Hc2, Hc1; exact Hnone|]. split.
  - pose proof (transform_runs opts hst n filename raw s Hraw) as Hlt.
    rewrite transform_eq, Hraw in Hlt.
    destruct (bind _ _ _) as [[t|e|] s'] in Hfetch, Hlt; try discriminate.
    injection Hfetch as <- <-. cbn [snd] in Hlt.
    pose proof (runs_grow_commit filename opts hst filename t s') as Hc.
    pose proof (runs_grow_log filename (EvDebugTokens t)
                  (snd (commit opts hst filename t s'))) as Hl.
    unfold runs_grow in *. lia.
  - rewrite fetch_S, Hres, Hmiss2.
    pose proof (transform_runs opts hst m filename raw s1 Hraw) as Hlt.
    destruct (transform opts hst (fetch opts hst m) filename s1) as [[t|e|] s'];
      cbn [snd] in *; try exact Hlt.
    pose proof (runs_grow_commit filename opts hst filename t s') as Hc.
    pose proof (runs_grow_log filename (EvDebugTokens t)
                  (snd (commit opts hst filename t s'))) as Hl.
    unfold runs_grow in *. lia.
Qed.

Lemma fetch_dev_twice_runs_twice_witness :
  tokensByFile (snd Demo.dev_fetch) !! "/app/a.css" = None /\
  tokensByFile (snd (fetch Demo.dev Demo.the_host 2 "/app/a.css" "/app/a.css"
                       (snd Demo.dev_fetch))) !! "/app/a.css" = None /\
  runs "/app/a.css" Demo.start < runs "/app/a.css" (snd Demo.dev_fetch) /\
  runs "/app/a.css" (snd Demo.dev_fetch)
  < runs "/app/a.css"
      (snd (fetch Demo.dev Demo.the_host 2 "/app/a.css" "/app/a.css"
              (snd Demo.dev_fetch))).
Proof.
  apply (fetch_dev_twice_runs_twice Demo.dev Demo.the_host 2 1
           "/app/a.css" "/app/a.css" "/app/a.css" Demo.start (VObj 0)
           (snd Demo.dev_fetch));
    reflexivity.
Defined.

(** ** Normal mode *)

Lemma fetch_normal_cached opts hst n _to from s tokens s1 :
  debugMode opts hst = false ->
  fetch opts hst n _to from s = (Ok tokens, s1) ->
  exists filename,
    resolveFilename hst _to from = Ok filename /\
    cache_lookup s1 filename = tokens.
Proof.
  intros Hdev Hfetch. destruct n as [|n]; [discriminate|].
  rewrite fetch_S in Hfetch.
  destruct (resolveFilename hst _to from) as [filename|e|]; try discriminate.
  exists filename. split; [reflexivity|].
  destruct (truthy (cache_lookup s filename)).
  - injection Hfetch as <- <-. reflexivity.
  - destruct (transform opts hst (fetch opts hst n) filename s) as [[t|e|] s'];
      try discriminate.
    rewrite commit_eq, Hdev in Hfetch. injection Hfetch as <- <-.
    unfold cache_lookup. cbn. rewrite lookup_insert_eq. reflexivity.
Qed.

(** C4: in normal mode, once a [fetch] of a file has returned a mapping
    object (any truthy value), every later [fetch] of the file returns the
    same reference, and does nothing but log the cache hit: no read, no
    preprocessing, no run of the runner. This holds with and without
    references to other files. *)
Theorem fetch_normal_twice_same_reference opts hst n m _to from s tokens s1 :
  debugMode opts hst = false ->
  fetch opts hst n _to from s = (Ok tokens, s1) ->
  truthy tokens = true ->
  exists filename,
    resolveFilename hst _to from = Ok filename /\
    fetch opts hst (S m) _to from s1
    = (Ok tokens,
       log (EvDebugTokens tokens) (log (EvDebugFetch filename FromCache) s1)).
Proof.
  intros Hdev Hfetch Htruthy.
  destruct (fetch_normal_cached opts hst n _to from s tokens s1 Hdev Hfetch)
    as (filename & Hres & Hcache).
  exists filename. split; [exact Hres|].
  rewrite fetch_S, Hres, Hcache, Htruthy. reflexivity.
Qed.

Lemma fetch_normal_twice_same_reference_witness :
  exists filename,
    resolveFilename Demo.the_host "/app/a.css" "/app/a.css" = Ok filename /\
    fetch Demo.normal Demo.the_host 1 "/app/a.css" "/app/a.css"
          (snd Demo.normal_fetch)
    = (Ok (VObj 0),
       log (EvDebugTokens (VObj 0))
           (log (EvDebugFetch filename FromCache) (snd Demo.normal_fetch))).
Proof.
  apply (fetch_normal_twice_same_reference Demo.normal Demo.the_host 2 0
           "/app/a.css" "/app/a.css" Demo.start (VObj 0) (snd Demo.normal_fetch));
    reflexivity.
Defined.

(** ** Objects *)

Section Objects.

Implicit Types (o t : obj) (k x : string) (v : value).

Lemma obj_get_set_eq k v o : obj_get k (obj_set k v o) = Some v.
Proof.
  induction o as [|[k' v'] o IH]; simpl.
  - rewrite String.eqb_refl. reflexivity.
  - destruct (String.eqb_spec k' k) as [->|Hne]; simpl.
    + rewrite String.eqb_refl. reflexivity.
    + destruct (String.eqb_spec k' k); [contradiction | exact IH].
Qed.

Lemma obj_get_set_ne k x v o : k <> x -> obj_get x (obj_set k v o) = obj_get x o.
Proof.
  intros Hne. induction o as [|[k' v'] o IH]; simpl.
  - destruct (String.eqb_spec k x); [contradiction | reflexivity].
  - destruct (String.eqb_spec k' k) as [->|Hk]; simpl.
    + destruct (String.eqb_spec k x); [contradiction | reflexivity].
    + destruct (String.eqb_spec k' x); [reflexivity | exact IH].
Qed.

Lemma obj_get_None k o : obj_get k o = None <-> k ∉ obj_keys o.
Proof.
  induction o as [|[k' v'] o IH]; simpl.
  - split; [intros _; apply not_elem_of_nil | reflexivity].
  - rewrite not_elem_of_cons. destruct (String.eqb_spec k' k) as [->|Hne].
    + split; [discriminate | intros [H _]; contradiction].
    + rewrite IH. split; [intros H; split; [congruence | exact H] | intros [_ H]; exact H].
Qed.

Lemma obj_get_Some_elem k v o : obj_get k o = Some v -> (k, v) ∈ o.
Proof.
  induction o as [|[k' v'] o IH]; simpl; [discriminate|].
  destruct (String.eqb_spec k' k) as [->|Hne].
  - intros [= ->]. apply elem_of_cons. left. reflexivity.
  - intros H. apply elem_of_cons. right. apply IH, H.
Qed.

Lemma obj_get_Some_key k v o : obj_get k o = Some v -> k ∈ obj_keys o.
Proof.
  intros H. apply obj_get_Some_elem in H. unfold obj_keys.
  apply list_elem_of_fmap. exists (k, v). split; [reflexivity | exact H].
Qed.

Lemma elem_obj_get k v o : NoDup (obj_keys o) -> (k, v) ∈ o -> obj_get k o = Some v.
Proof.
  induction o as [|[k' v'] o IH]; simpl; intros Hnd Hin.
  - apply elem_of_nil in Hin. contradiction.
  - apply NoDup_cons in Hnd as [Hk' Hnd].
    apply elem_of_cons in Hin as [[= -> ->]|Hin].
    + rewrite String.eqb_refl. reflexivity.
    + destruct (String.eqb_spec k' k) as [->|Hne]; [|apply IH; assumption].
      exfalso. apply Hk'. unfold obj_keys. apply list_elem_of_fmap.
      exists (k, v). split; [reflexivity | exact Hin].
Qed.

Lemma obj_keys_set x k v o :
  x ∈ obj_keys (obj_set k v o) <-> x = k \/ x ∈ obj_keys o.
Proof.
  induction o as [|[k' v'] o IH]; simpl.
  - rewrite elem_of_cons. reflexivity.
  - destruct (String.eqb_spec k' k) as [->|Hne]; simpl;
      rewrite !elem_of_cons; [tauto|]. rewrite IH. tauto.
Qed.

Lemma obj_set_NoDup k v o : NoDup (obj_keys o) -> NoDup (obj_keys (obj_set k v o)).
Proof.
  induction o as [|[k' v'] o IH]; simpl; intros Hnd.
  - apply NoDup_singleton.
  - apply NoDup_cons in Hnd as [Hk' Hnd].
    destruct (String.eqb_spec k' k) as [->|Hne]; simpl.
    + apply NoDup_cons. split; assumption.
    + apply NoDup_cons. split; [|apply IH, Hnd].
      intros [->|H]%obj_keys_set; [apply Hne; reflexivity | contradiction].
Qed.

Lemma set_all_cons g kv source target :
  set_all g (kv :: source) target
  = set_all g source (obj_set (g (fst kv)) (snd kv) target).
Proof. reflexivity. Qed.

Lemma set_all_NoDup g source target :
  NoDup (obj_keys target) -> NoDup (obj_keys (set_all g source target)).
Proof.
  revert target. induction source as [|kv source IH]; intros target Hnd;
    [exact Hnd|].
  rewrite set_all_cons. apply IH, obj_set_NoDup, Hnd.
Qed.

Lemma obj_of_list_NoDup l : NoDup (obj_keys (obj_of_list l)).
Proof. apply set_all_NoDup. apply NoDup_nil_2. Qed.

(** No key of the source goes to [x]: the property [x] is untouched. *)
Lemma set_all_get_other g source target x :
  (forall k, k ∈ obj_keys source -> g k <> x) ->
  obj_get x (set_all g source target) = obj_get x target.
Proof.
  revert target. induction source as [|[k v] source IH]; intros target Hno;
    [reflexivity|].
  rewrite set_all_cons, IH.
  - apply obj_get_set_ne. apply Hno. simpl. apply elem_of_cons. left. reflexivity.
  - intros k' Hk'. apply Hno. simpl. apply elem_of_cons. right. exact Hk'.
Qed.

(** Exactly one key of the source goes to [g k]: its value arrives. *)
Lemma set_all_get_unique g source target k v :
  NoDup (obj_keys source) ->
  obj_get k source = Some v ->
  (forall k', k' ∈ obj_keys source -> g k' = g k -> k' = k) ->
  obj_get (g k) (set_all g source target) = Some v.
Proof.
  revert target. induction source as [|[k0 v0] source IH];
    intros target Hnd Hget Huniq; [discriminate|].
  simpl in Hnd. apply NoDup_cons in Hnd as [Hk0 Hnd].
  rewrite set_all_cons. simpl in Hget |- *.
  destruct (String.eqb_spec k0 k) as [->|Hne].
  - injection Hget as ->. rewrite set_all_get_other; [apply obj_get_set_eq|].
    intros k' Hk' Heq. apply Hk0.
    rewrite <- (Huniq k'); [exact Hk' | | exact Heq].
    simpl. apply elem_of_cons. right. exact Hk'.
  - apply IH; [exact Hnd | exact Hget |].
    intros k' Hk'. apply Huniq. simpl. apply elem_of_cons. right. exact Hk'.
Qed.

Lemma set_all_get_kept g source target x :
  is_Some (obj_get x target) -> is_Some (obj_get x (set_all g source target)).
Proof.
  revert target. induction source as [|[k v] source IH]; intros target Hsome;
    [exact Hsome|].
  rewrite set_all_cons. apply IH. simpl.
  destruct (decide (g k = x)) as [<-|Hne].
  - rewrite obj_get_set_eq. eexists; reflexivity.
  - rewrite obj_get_set_ne by exact Hne. exact Hsome.
Qed.

Lemma set_all_get_present g source target k :
  k ∈ obj_keys source -> is_Some (obj_get (g k) (set_all g source target)).
Proof.
  revert target. induction source as [|[k0 v0] source IH]; intros target Hin.
  - apply elem_of_nil in Hin. contradiction.
  - rewrite set_all_cons. simpl in Hin. apply elem_of_cons in Hin as [->|Hin].
    + apply set_all_get_kept. simpl. rewrite obj_get_set_eq. eexists; reflexivity.
    + apply IH, Hin.
Qed.

(** Where a value of the result comes from. *)
Lemma set_all_get_origin g source target x v :
  obj_get x (set_all g source target) = Some v ->
  obj_get x target = Some v \/ exists k, (k, v) ∈ source /\ g k = x.
Proof.
  revert target. induction source as [|[k0 v0] source IH]; intros target Hget.
  - left. exact Hget.
  - rewrite set_all_cons in Hget. apply IH in Hget as [Hget|(k & Hin & Hk)].
    + simpl in Hget. destruct (decide (g k0 = x)) as [Heq|Hne].
      * rewrite <- Heq, obj_get_set_eq in Hget. injection Hget as ->.
        right. exists k0. split; [apply elem_of_cons; left; reflexivity | exact Heq].
      * rewrite obj_get_set_ne in Hget by exact Hne. left. exact Hget.
    + right. exists k. split; [apply elem_of_cons; right; exact Hin | exact Hk].
Qed.

(** Of several keys that go to the same place, the last one wins. *)
Lemma set_all_get_last g before k v after target :
  (forall k', k' ∈ obj_keys after -> g k' <> g k) ->
  obj_get (g k) (set_all g (before ++ (k, v) :: after)%list target) = Some v.
Proof.
  intros Hafter. unfold set_all. rewrite fold_left_app. cbn [fold_left].
  fold (set_all g before target).
  fold (set_all g after (obj_set (g (fst (k, v))) (snd (k, v))
                                  (set_all g before target))).
  rewrite set_all_get_other by exact Hafter. apply obj_get_set_eq.
Qed.

(** [assign]: the source wins, the rest of the target stays. *)
Lemma assign_get target source k :
  NoDup (obj_keys source) ->
  obj_get k (assign target source)
  = match obj_get k source with
    | Some v => Some v
    | None => obj_get k target
    end.
Proof.
  intros Hnd. unfold assign. destruct (obj_get k source) as [v|] eqn:Hget.
  - apply (set_all_get_unique (fun k => k) source target k v Hnd Hget).
    intros k' _ Heq. exact Heq.
  - apply set_all_get_other. intros k' Hk' ->.
    apply obj_get_None in Hget. contradiction.
Qed.

End Objects.

(** ** Camel-cased keys *)

Lemma camel_obj_spec hst o :
  NoDup (obj_keys o) ->
  (forall k v,
      obj_get k o = Some v ->
      obj_get k (camel_obj hst o) = Some v /\
      is_Some (obj_get (camelCaseFunc hst k) (camel_obj hst o)) /\
      (obj_get (camelCaseFunc hst k) o = None ->
       (forall k', k' ∈ obj_keys o ->
                   camelCaseFunc hst k' = camelCaseFunc hst k -> k' = k) ->
       obj_get (camelCaseFunc hst k) (camel_obj hst o) = Some v)) /\
  (forall before k v after,
      o = (before ++ (k, v) :: after)%list ->
      obj_get (camelCaseFunc hst k) o = None ->
      (forall k', k' ∈ obj_keys after ->
                  camelCaseFunc hst k' <> camelCaseFunc hst k) ->
      obj_get (camelCaseFunc hst k) (camel_obj hst o) = Some v) /\
  (forall x v,
      obj_get x (camel_obj hst o) = Some v ->
      exists k, obj_get k o = Some v /\ (k = x \/ camelCaseFunc hst k = x)).
Proof.
  intros Hnd. unfold camel_obj. split; [|split].
  - intros k v Hget. repeat split.
    + rewrite assign_get, Hget by exact Hnd. reflexivity.
    + rewrite assign_get by exact Hnd.
      destruct (obj_get (camelCaseFunc hst k) o); [eexists; reflexivity|].
      apply set_all_get_present. eapply obj_get_Some_key, Hget.
    + intros Hnone Huniq. rewrite assign_get, Hnone by exact Hnd.
      apply set_all_get_unique; assumption.
  - intros before k v after Ho Hnone Hafter.
    rewrite assign_get, Hnone by exact Hnd. unfold mapKeys. rewrite Ho.
    apply set_all_get_last, Hafter.
  - intros x v Hget. rewrite assign_get in Hget by exact Hnd.
    destruct (obj_get x o) as [w|] eqn:Hx.
    + injection Hget as ->. exists x. split; [exact Hx | left; reflexivity].
    + apply set_all_get_origin in Hget as [Hget|(k & Hin & Hk)]; [discriminate|].
      exists k. split; [apply elem_obj_get; assumption | right; exact Hk].
Qed.

(** ** From the result of the runner to the tokens *)

Lemma warn_all_Ok ws s :
  exists s', warn_all ws s = (Ok tt, s') /\ heap s' = heap s /\
             tokensByFile s' = tokensByFile s /\ requireCache s' = requireCache s.
Proof.
  revert s. induction ws as [|w ws IH]; intros s; simpl.
  - exists s. repeat split.
  - unfold bind, emit, modify. destruct (IH (log (EvWarn w) s)) as (s' & -> & Hh & Ht & Hr).
    exists s'. repeat split; assumption.
Qed.

Lemma finish_spec opts hst filename lr s :
  exists tokens s',
    finish opts hst filename lr s = (Ok tokens, s') /\
    tokensByFile s' = tokensByFile s /\ requireCache s' = requireCache s /\
    match processTokens opts with
    | Some pt =>
        tokens = fst (pt (fst (augmented opts hst lr (heap s))) filename lr
                         (snd (augmented opts hst lr (heap s)))) /\
        heap s' = snd (pt (fst (augmented opts hst lr (heap s))) filename lr
                          (snd (augmented opts hst lr (heap s))))
    | None =>
        tokens = fst (augmented opts hst lr (heap s)) /\
        heap s' = snd (augmented opts hst lr (heap s))
    end.
Proof.
  unfold finish, augmented, bind at 1.
  destruct (warn_all_Ok (lr_warnings lr) s) as (sw & -> & Hh & Ht & Hr).
  rewrite <- Hh, <- Ht, <- Hr. clear Hh Ht Hr s.
  destruct (camelCase opts), (processCss opts), (processTokens opts) as [pt|];
    do 2 eexists; (split; [reflexivity|]); simpl; auto.
Qed.

Lemma run_pipe_Ok_tokens fch p s lr s1 :
  run_pipe fch p s = (Ok lr, s1) ->
  exists toks, own_props (heap s1) (lr_tokens lr) = obj_of_list toks.
Proof.
  revert s. induction p as [css ws toks | e | t f k IH]; intros s Hrun; simpl in Hrun.
  - unfold bind, alloc, ret in Hrun. injection Hrun as <- <-.
    exists toks. simpl. rewrite list_lookup_middle by reflexivity. reflexivity.
  - discriminate.
  - apply bind_Ok in Hrun as (v & s0 & _ & Hrun).
    apply bind_Ok in Hrun as (h & s0' & _ & Hrun). eapply IH, Hrun.
Qed.

(** A [fetch] that returns after a cache miss: its steps. *)
Lemma fetch_miss_Ok opts hst n _to from filename s tokens s' :
  resolveFilename hst _to from = Ok filename ->
  truthy (cache_lookup s filename) = false ->
  fetch opts hst (S n) _to from s = (Ok tokens, s') ->
  exists raw lr s1 s2,
    readFileSync hst filename = Some raw /\
    run_pipe (fetch opts hst n)
             (runner_process hst (preprocessCss opts raw filename) filename)
             (at_runner filename s) = (Ok lr, s1) /\
    finish opts hst filename lr s1 = (Ok tokens, s2) /\
    s' = log (EvDebugTokens tokens) (snd (commit opts hst filename tokens s2)).
Proof.
  intros Hres Hmiss Hfetch. rewrite fetch_S, Hres, Hmiss, transform_eq in Hfetch.
  destruct (readFileSync hst filename) as [raw|]; [|discriminate].
  destruct (bind _ _ _) as [[t|e|] s2] eqn:Hbind in Hfetch; try discriminate.
  injection Hfetch as -> <-.
  apply bind_Ok in Hbind as (lr & s1 & Hrun & Hfin).
  exists raw, lr, s1, s2. repeat split; assumption.
Qed.

Lemma heap_commit opts hst filename tokens s :
  heap (snd (commit opts hst filename tokens s)) = heap s.
Proof. rewrite commit_eq. destruct (debugMode opts hst); reflexivity. Qed.

Lemma augmented_props_camel opts hst lr h :
  camelCase opts = true ->
  augmented_props opts hst lr h = camel_obj hst (own_props h (lr_tokens lr)).
Proof.
  intros Hcamel. unfold augmented_props, augmented. rewrite Hcamel.
  cbn [fst snd own_props]. rewrite list_lookup_middle by reflexivity.
  reflexivity.
Qed.

(** C5, as amended: with [camelCase], a [fetch] that runs the runner
    builds the augmented mapping; without [processTokens] it returns that
    mapping, and with [processTokens] it hands it to the function and
    returns what the function returns. The augmented mapping keeps every
    key [k] of the runner's mapping with its value (so an original key wins
    over a camel-cased form equal to it) and has the camel-cased form of
    [k]. A camel-cased form that is not an original key has the value of
    the last key, in the order of the runner's mapping, with that form: the
    value of [k] when no other key shares the form. Every value of the
    augmented mapping is the value of an original key with that name or
    that camel-cased form. *)
Theorem fetch_camelCase opts hst n _to from filename s tokens s' :
  camelCase opts = true ->
  resolveFilename hst _to from = Ok filename ->
  truthy (cache_lookup s filename) = false ->
  fetch opts hst (S n) _to from s = (Ok tokens, s') ->
  exists raw lr s1,
    readFileSync hst filename = Some raw /\
    run_pipe (fetch opts hst n)
             (runner_process hst (preprocessCss opts raw filename) filename)
             (at_runner filename s) = (Ok lr, s1) /\
    match processTokens opts with
    | Some pt =>
        tokens = fst (pt (fst (augmented opts hst lr (heap s1))) filename lr
                         (snd (augmented opts hst lr (heap s1))))
    | None =>
        tokens = fst (augmented opts hst lr (heap s1)) /\
        own_props (heap s') tokens = augmented_props opts hst lr (heap s1)
    end /\
    (forall k v,
        obj_get k (own_props (heap s1) (lr_tokens lr)) = Some v ->
        obj_get k (augmented_props opts hst lr (heap s1)) = Some v /\
        is_Some (obj_get (camelCaseFunc hst k)
                         (augmented_props opts hst lr (heap s1))) /\
        (obj_get (camelCaseFunc hst k) (own_props (heap s1) (lr_tokens lr)) = None ->
         (forall k', k' ∈ obj_keys (own_props (heap s1) (lr_tokens lr)) ->
                     camelCaseFunc hst k' = camelCaseFunc hst k -> k' = k) ->
         obj_get (camelCaseFunc hst k) (augmented_props opts hst lr (heap s1))
         = Some v)) /\
    (forall before k v after,
        own_props (heap s1) (lr_tokens lr) = (before ++ (k, v) :: after)%list ->
        obj_get (camelCaseFunc hst k) (own_props (heap s1) (lr_tokens lr)) = None ->
        (forall k', k' ∈ obj_keys after ->
                    camelCaseFunc hst k' <> camelCaseFunc hst k) ->
        obj_get (camelCaseFunc hst k) (augmented_props opts hst lr (heap s1))
        = Some v) /\
    (forall x v,
        obj_get x (augmented_props opts hst lr (heap s1)) = Some v ->
        exists k, obj_get k (own_props (heap s1) (lr_tokens lr)) = Some v /\
                  (k = x \/ camelCaseFunc hst k = x)).
Proof.
  intros Hcamel Hres Hmiss Hfetch.
  destruct (fetch_miss_Ok _ _ _ _ _ _ _ _ _ Hres Hmiss Hfetch)
    as (raw & lr & s1 & s2 & Hraw & Hrun & Hfin & ->).
  exists raw, lr, s1. split; [exact Hraw | split; [exact Hrun|]].
  destruct (finish_spec opts hst filename lr s1) as (t & s2' & Hfin' & _ & _ & Hspec).
  rewrite Hfin in Hfin'. injection Hfin' as <- <-.
  split.
  - destruct (processTokens opts) as [pt|].
    + exact (proj1 Hspec).
    + destruct Hspec as [Htok Hheap]. split; [exact Htok|].
      cbn [log heap]. rewrite heap_commit, Hheap, Htok. reflexivity.
  - rewrite (augmented_props_camel opts hst lr (heap s1) Hcamel).
    destruct (run_pipe_Ok_tokens _ _ _ _ _ Hrun) as (toks & ->).
    apply camel_obj_spec, obj_of_list_NoDup.
Qed.

Lemma fetch_camelCase_witness :
  obj_get "baz-qux" (own_props (heap (snd Demo.camel_fetch)) (VObj 1))
  = Some (VStr "c") /\
  obj_get "bazQux" (own_props (heap (snd Demo.camel_fetch)) (VObj 1))
  = Some (VStr "c") /\
  obj_get "fooBar" (own_props (heap (snd Demo.camel_fetch)) (VObj 1))
  = Some (VStr "b").
Proof.
  assert (Hfetch : fetch (Demo.config false true None) Demo.the_host 1
                         "/app/dup.css" "/app/dup.css" Demo.start
                   = (Ok (VObj 1), snd Demo.camel_fetch)) by reflexivity.
  destruct (fetch_camelCase (Demo.config false true None) Demo.the_host 0
              "/app/dup.css" "/app/dup.css" "/app/dup.css" Demo.start (VObj 1)
              (snd Demo.camel_fetch) eq_refl eq_refl eq_refl Hfetch)
    as (raw & lr & s1 & Hraw & Hrun & [_ Hprops] & Hkeys & Hlast & _).
  injection Hraw as <-. injection Hrun as <- <-. rewrite Hprops.
  destruct (Hkeys "baz-qux" (VStr "c") eq_refl) as (H1 & _ & _).
  split; [exact H1|]. split.
  - apply (Hlast [("foo-bar", VStr "a"); ("foo_bar", VStr "b")]
                 "baz-qux" (VStr "c") []); [reflexivity | reflexivity |].
    intros k' Hk'. apply elem_of_nil in Hk'. contradiction.
  - apply (Hlast [("foo-bar", VStr "a")] "foo_bar" (VStr "b")
                 [("baz-qux", VStr "c")]); [reflexivity | reflexivity |].
    intros k' Hk'. apply list_elem_of_singleton in Hk'. subst k'. discriminate.
Defined.

(** C5 as stated fails: [foo-bar] and [foo_bar] have the same camel-cased
    form, which is not a key of the runner's mapping, and [fooBar] gets the
    value of [foo_bar], not that of [foo-bar]. *)
Lemma fetch_camelCase_collision :
  fst Demo.camel_fetch = Ok (VObj 1) /\
  own_props (heap (snd Demo.camel_fetch)) (VObj 0)
    = [("foo-bar", VStr "a"); ("foo_bar", VStr "b"); ("baz-qux", VStr "c")] /\
  camelCaseFunc Demo.the_host "foo-bar" = "fooBar" /\
  obj_get "fooBar" (own_props (heap (snd Demo.camel_fetch)) (VObj 0)) = None /\
  obj_get "foo-bar" (own_props (heap (snd Demo.camel_fetch)) (VObj 1))
    = Some (VStr "a") /\
  obj_get "fooBar" (own_props (heap (snd Demo.camel_fetch)) (VObj 1))
    = Some (VStr "b") /\
  VStr "b" <> VStr "a".
Proof.
  repeat split; try (vm_compute; reflexivity). discriminate.
Qed.

Lemma cache_produced_same pt s s' :
  tokensByFile s' = tokensByFile s -> cache_produced pt s -> cache_produced pt s'.
Proof. intros Heq H f v. rewrite Heq. apply H. Qed.

Lemma cache_produced_commit opts hst pt filename tokens s :
  produced_by pt tokens ->
  cache_produced pt s ->
  cache_produced pt (snd (commit opts hst filename tokens s)).
Proof.
  intros Hp Hinv. rewrite commit_eq. destruct (debugMode opts hst); cbn [snd].
  - eapply cache_produced_same; [|exact Hinv]. reflexivity.
  - intros f v. cbn. rewrite lookup_insert. destruct (decide (filename = f)).
    + intros [= <-] _. exact Hp.
    + apply Hinv.
Qed.

(** Every value that [fetch] returns, from the runner or from the token
    cache, is a value returned by [processTokens]. *)
Lemma fetch_produced opts hst pt :
  processTokens opts = Some pt ->
  forall n _to from s,
    cache_produced pt s ->
    cache_produced pt (snd (fetch opts hst n _to from s)) /\
    forall tokens,
      fst (fetch opts hst n _to from s) = Ok tokens -> produced_by pt tokens.
Proof.
  intros Hpt. induction n as [|n IH]; intros _to from s Hinv.
  - split; [exact Hinv | discriminate].
  - rewrite fetch_S.
    destruct (resolveFilename hst _to from) as [filename|e|];
      [|split; [exact Hinv | discriminate]..].
    destruct (truthy (cache_lookup s filename)) eqn:Hhit.
    { split; [eapply cache_produced_same; [|exact Hinv]; reflexivity|].
      intros tokens [= <-]. unfold cache_lookup in *.
      destruct (tokensByFile s !! filename) as [v|] eqn:Hv; [|discriminate].
      eapply Hinv; [exact Hv | exact Hhit]. }
    rewrite transform_eq.
    destruct (readFileSync hst filename) as [raw|].
    2:{ split; [eapply cache_produced_same; [|exact Hinv]; reflexivity | discriminate]. }
    unfold bind.
    assert (Hrun : keeps (fun s0 s1 => cache_produced pt s0 -> cache_produced pt s1)
                     (run_pipe (fetch opts hst n)
                        (runner_process hst (preprocessCss opts raw filename)
                                        filename))).
    { apply keeps_run_pipe; [auto | auto | |].
      - intros h s0. apply cache_produced_same. reflexivity.
      - intros t f s0 H0. apply (IH t f s0 H0). }
    specialize (Hrun (at_runner filename s)
                     (cache_produced_same pt s _ eq_refl Hinv)).
    destruct (run_pipe _ _ _) as [[lr|e|] s1]; cbn [fst snd] in Hrun |- *;
      [|split; [exact Hrun | discriminate]..].
    destruct (finish_spec opts hst filename lr s1)
      as (t & s2 & -> & Hcache & _ & Hspec).
    rewrite Hpt in Hspec. destruct Hspec as [Ht _].
    assert (Hp : produced_by pt t) by (rewrite Ht; do 4 eexists; reflexivity).
    cbn [fst snd]. split; [|intros tokens [= <-]; exact Hp].
    eapply cache_produced_same; [reflexivity|].
    apply cache_produced_commit; [exact Hp|].
    eapply cache_produced_same; [exact Hcache | exact Hrun].
Qed.

(** C6: with [processTokens], every value that [fetch] returns is a value
    returned by [processTokens], and in normal mode it is the entry of the
    path in the token cache. A [fetch] that runs the runner returns what
    [processTokens] returns for the (possibly camel-cased) tokens, the
    path and the result of the runner. *)
Theorem fetch_returns_processTokens opts hst n _to from filename s pt tokens s' :
  processTokens opts = Some pt ->
  resolveFilename hst _to from = Ok filename ->
  cache_produced pt s ->
  fetch opts hst (S n) _to from s = (Ok tokens, s') ->
  produced_by pt tokens /\
  cache_produced pt s' /\
  (debugMode opts hst = false -> tokensByFile s' !! filename = Some tokens) /\
  (truthy (cache_lookup s filename) = false ->
   exists raw lr s1,
     readFileSync hst filename = Some raw /\
     run_pipe (fetch opts hst n)
              (runner_process hst (preprocessCss opts raw filename) filename)
              (at_runner filename s) = (Ok lr, s1) /\
     tokens = fst (pt (fst (augmented opts hst lr (heap s1))) filename lr
                      (snd (augmented opts hst lr (heap s1)))) /\
     heap s' = snd (pt (fst (augmented opts hst lr (heap s1))) filename lr
                       (snd (augmented opts hst lr (heap s1))))).
Proof.
  intros Hpt Hres Hinv Hfetch.
  destruct (fetch_produced opts hst pt Hpt (S n) _to from s Hinv) as [Hinv' Hprod].
  rewrite Hfetch in Hinv', Hprod. cbn [fst snd] in Hinv', Hprod.
  split; [apply Hprod; reflexivity|]. split; [exact Hinv'|]. split.
  - intros Hdev.
    destruct (fetch_normal_cached opts hst (S n) _to from s tokens s' Hdev Hfetch)
      as (filename' & Hres' & Hcache).
    rewrite Hres in Hres'. injection Hres' as <-.
    rewrite fetch_S, Hres in Hfetch.
    destruct (truthy (cache_lookup s filename)) eqn:Hhit.
    + injection Hfetch as <- <-. cbn. unfold cache_lookup in *.
      destruct (tokensByFile s !! filename); [reflexivity | discriminate].
    + destruct (transform opts hst (fetch opts hst n) filename s) as [[t|e|] s1];
        try discriminate.
      rewrite commit_eq, Hdev in Hfetch. injection Hfetch as <- <-.
      cbn. apply lookup_insert_eq.
  - intros Hmiss.
    destruct (fetch_miss_Ok _ _ _ _ _ _ _ _ _ Hres Hmiss Hfetch)
      as (raw & lr & s1 & s2 & Hraw & Hrun & Hfin & ->).
    exists raw, lr, s1. split; [exact Hraw | split; [exact Hrun|]].
    destruct (finish_spec opts hst filename lr s1)
      as (t & s2' & Hfin' & _ & _ & Hspec).
    rewrite Hfin in Hfin'. injection Hfin' as <- <-.
    rewrite Hpt in Hspec. destruct Hspec as [Htok Hheap].
    split; [exact Htok|]. cbn [log heap]. rewrite heap_commit. exact Hheap.
Qed.

Lemma cache_produced_start pt : cache_produced pt Demo.start.
Proof. intros f v H. cbn in H. rewrite lookup_empty in H. discriminate. Qed.

Lemma fetch_returns_processTokens_witness :
  produced_by Demo.upper_tokens (VObj 1) /\
  tokensByFile (snd Demo.upper_fetch) !! "/app/a.css" = Some (VObj 1) /\
  own_props (heap (snd Demo.upper_fetch)) (VObj 1) = [("foo", VStr "X")].
Proof.
  assert (Hfetch : fetch (Demo.config false false (Some Demo.upper_tokens))
                         Demo.the_host 1 "/app/a.css" "/app/a.css" Demo.start
                   = (Ok (VObj 1), snd Demo.upper_fetch)) by reflexivity.
  destruct (fetch_returns_processTokens
              (Demo.config false false (Some Demo.upper_tokens)) Demo.the_host 0
              "/app/a.css" "/app/a.css" "/app/a.css" Demo.start Demo.upper_tokens
              (VObj 1) (snd Demo.upper_fetch) eq_refl eq_refl
              (cache_produced_start Demo.upper_tokens) Hfetch)
    as (H1 & _ & H3 & H4).
  split; [exact H1|]. split; [apply H3; reflexivity|].
  destruct (H4 eq_refl) as (raw & lr & s1 & Hraw & Hrun & _ & Hheap).
  rewrite Hheap. injection Hraw as <-. injection Hrun as <- <-. reflexivity.
Defined.

(** ** A failed [fetch] *)








(** ** The snapshot of a proxy in live-reload mode *)

(** C8: in live-reload mode the first read through a proxy stores the
    mapping as the snapshot, and yet a second read of a key that the
    mapping has not runs [fetch] again: two passes over the file after two
    reads. *)
Theorem proxy_dev_missing_key_refetches :
  debugMode Demo.dev Demo.the_host = true /\
  fetches "/app/a.css" Demo.with_proxy = 0 /\
  fst Demo.first_read = Ok VUndefined /\
  target_of (snd Demo.first_read) 0 !! KStr "cache" = Some (VObj 0) /\
  fetches "/app/a.css" (snd Demo.first_read) = 1 /\
  fst Demo.second_read = Ok VUndefined /\
  fetches "/app/a.css" (snd Demo.second_read) = 2 /\
  runs "/app/a.css" (snd Demo.second_read) = 2.
Proof.
  repeat split; vm_compute; reflexivity.
Qed.

Lemma bind_eq_Ok {A B} (m : M A) (f : A -> M B) s a s1 :
  m s = (Ok a, s1) -> bind m f s = f a s1.
Proof. intros H. unfold bind. rewrite H. reflexivity. Qed.

Lemma target_get_eq hst p name s :
  target_get hst p name s = (Ok (target_read hst s p name), s).
Proof. reflexivity. Qed.

Lemma proxy_file_eq p s px :
  proxies s !! p = Some px -> proxy_file p s = (Ok (pfile px), s).
Proof. intros Hp. unfold proxy_file. rewrite Hp. reflexivity. Qed.

(** What the snapshot does give: a key with a truthy value in the snapshot
    is answered from the snapshot, without [fetch] and without any effect. *)
Lemma proxy_get_from_snapshot opts hst fuel p name s px c v :
  proxies s !! p = Some px ->
  is_inspect name = false ->
  truthy (target_read hst s p name) = false ->
  target_read hst s p (KStr "cache") = c ->
  truthy c = true ->
  get_prop hst c name s = (Ok v, s) ->
  truthy v = true ->
  proxy_get opts hst fuel p name s = (Ok v, s).
Proof.
  intros Hp Hname Hown Hc Hct Hget Hv. unfold proxy_get.
  rewrite (bind_eq_Ok (proxy_file p) _ s (pfile px) s (proxy_file_eq p s px Hp)).
  rewrite Hname.
  rewrite (bind_eq_Ok _ _ s _ s (target_get_eq hst p name s)), Hown.
  rewrite (bind_eq_Ok _ _ s _ s (target_get_eq hst p (KStr "cache") s)), Hc.
  rewrite Hct.
  rewrite (bind_eq_Ok _ _ s _ s Hget), Hv. exact Hget.
Qed.

(** ** Enough fuel *)




(** ** An upper-casing [processTokens] *)

Lemma upper_char_idem c : Demo.upper_char (Demo.upper_char c) = Demo.upper_char c.
Proof. destruct c as [[] [] [] [] [] [] [] []]; reflexivity. Qed.

Lemma upper_idem s : Demo.upper (Demo.upper s) = Demo.upper s.
Proof.
  induction s as [|c s IH]; simpl; [reflexivity|].
  rewrite upper_char_idem, IH. reflexivity.
Qed.

Lemma upper_value_all_upper v : Demo.all_upper (Demo.upper_value v).
Proof. destruct v; simpl; auto using upper_idem. Qed.

(** Whatever the runner returns, every value of the mapping that a
    [fetch] with the upper-casing [processTokens] produces is upper case. *)
Lemma fetch_upper_tokens opts hst n _to from filename s tokens s' :
  processTokens opts = Some Demo.upper_tokens ->
  resolveFilename hst _to from = Ok filename ->
  truthy (cache_lookup s filename) = false ->
  fetch opts hst (S n) _to from s = (Ok tokens, s') ->
  Forall (fun kv => Demo.all_upper (snd kv)) (own_props (heap s') tokens).
Proof.
  intros Hpt Hres Hmiss Hfetch.
  destruct (fetch_miss_Ok _ _ _ _ _ _ _ _ _ Hres Hmiss Hfetch)
    as (raw & lr & s1 & s2 & _ & _ & Hfin & ->).
  destruct (finish_spec opts hst filename lr s1) as (t & s2' & Hfin' & _ & _ & Hspec).
  rewrite Hfin in Hfin'. injection Hfin' as <- <-.
  rewrite Hpt in Hspec. destruct Hspec as [-> Hheap].
  cbn [log heap]. rewrite heap_commit, Hheap.
  unfold Demo.upper_tokens. cbn [fst snd own_props].
  rewrite list_lookup_middle by reflexivity. cbn [default from_option id].
  apply Forall_fmap, Forall_forall. intros kv _. apply upper_value_all_upper.
Qed.

(** * More of the engine *)

(** ** A file that is in the token cache *)

Lemma occurrences_log e e' s :
  occurrences e (log e' s)
  = if decide (e' = e) then S (occurrences e s) else occurrences e s.
Proof.
  unfold occurrences, log. cbn [trace]. rewrite filter_cons.
  destruct (decide (e' = e)); reflexivity.
Qed.

Lemma settled_refl g s : settled g s s.
Proof. intros _. split; [reflexivity | intros; reflexivity]. Qed.

Lemma settled_trans g s1 s2 s3 :
  settled g s1 s2 -> settled g s2 s3 -> settled g s1 s3.
Proof.
  intros H12 H23 H1. destruct (H12 H1) as [Hc2 He2].
  destruct H23 as [Hc3 He3]; [rewrite Hc2; exact H1|].
  split; [congruence|]. intros e He. rewrite He3, He2 by exact He. reflexivity.
Qed.

Lemma settled_same g s s' :
  tokensByFile s' = tokensByFile s -> trace s' = trace s -> settled g s s'.
Proof.
  intros Hc Ht _. unfold cache_lookup, occurrences. rewrite Hc, Ht.
  split; [reflexivity | intros; reflexivity].
Qed.

Lemma settled_log g e' s : e' ∉ transform_events g -> settled g s (log e' s).
Proof.
  intros Hne _. split; [reflexivity|]. intros e He. rewrite occurrences_log.
  destruct (decide (e' = e)) as [->|]; [contradiction | reflexivity].
Qed.

Lemma settled_emit g e' : e' ∉ transform_events g -> keeps (settled g) (emit e').
Proof. intros Hne s. apply settled_log, Hne. Qed.

Ltac not_transform_event :=
  let H := fresh in
  intros H; unfold transform_events in H;
  repeat (apply elem_of_cons in H as [H|H]; [congruence|]);
  apply elem_of_nil in H; exact H.

Lemma settled_warn_all g ws : keeps (settled g) (warn_all ws).
Proof.
  induction ws as [|w ws IH]; simpl.
  - apply keeps_ret, settled_refl.
  - apply keeps_bind; [apply settled_trans | | intros _; exact IH].
    apply settled_emit. not_transform_event.
Qed.

Lemma settled_finish g opts hst filename lr :
  keeps (settled g) (finish opts hst filename lr).
Proof.
  unfold finish.
  apply keeps_bind; [apply settled_trans | apply settled_warn_all | intros _].
  apply keeps_bind; [apply settled_trans | | intros tokens].
  { destruct (camelCase opts); [|apply keeps_ret, settled_refl].
    unfold camel_tokens. apply keeps_bind; [apply settled_trans | |].
    - apply keeps_gets, settled_refl.
    - intros h s. apply settled_same; reflexivity. }
  apply keeps_bind; [apply settled_trans | | intros _].
  { destruct (processCss opts); [|apply keeps_ret, settled_refl].
    apply settled_emit. not_transform_event. }
  destruct (processTokens opts) as [pt|]; [|apply keeps_ret, settled_refl].
  unfold call_processTokens.
  apply keeps_bind; [apply settled_trans | | intros _].
  { apply settled_emit. not_transform_event. }
  apply keeps_bind; [apply settled_trans | apply keeps_gets, settled_refl | intros h].
  apply keeps_bind; [apply settled_trans | | intros _; apply keeps_ret, settled_refl].
  intros s. apply settled_same; reflexivity.
Qed.

Lemma settled_transform g opts hst fch filename :
  filename <> g ->
  (forall t f, keeps (settled g) (fch t f)) ->
  keeps (settled g) (transform opts hst fch filename).
Proof.
  intros Hne Hf. unfold transform.
  apply keeps_bind; [apply settled_trans | | intros _].
  { apply settled_emit. not_transform_event. }
  apply keeps_bind; [apply settled_trans | | intros raw].
  { unfold readFile. apply keeps_bind; [apply settled_trans | | intros _].
    - apply settled_emit. not_transform_event.
    - destruct (readFileSync hst filename);
        [apply keeps_ret | apply keeps_throw]; apply settled_refl. }
  apply keeps_bind; [apply settled_trans | | intros _].
  { apply settled_emit. not_transform_event. }
  apply keeps_bind; [apply settled_trans | | intros _].
  { apply settled_emit. not_transform_event. }
  apply keeps_bind; [apply settled_trans | | intros lr; apply settled_finish].
  apply keeps_run_pipe; [apply settled_refl | apply settled_trans | | exact Hf].
  intros h s. apply settled_same; reflexivity.
Qed.

Lemma settled_fetch g opts hst n _to from :
  keeps (settled g) (fetch opts hst n _to from).
Proof.
  revert _to from. induction n as [|n IH]; intros _to from s;
    [apply settled_refl|].
  intros Hg. revert Hg. rewrite fetch_S.
  destruct (resolveFilename hst _to from) as [filename|e|];
    [|apply settled_refl..].
  destruct (truthy (cache_lookup s filename)) eqn:Hhit.
  { cbn [snd]. eapply settled_trans; apply settled_log; not_transform_event. }
  intros Hg.
  assert (Hne : filename <> g) by (intros ->; congruence).
  pose proof (settled_transform g opts hst (fetch opts hst n) filename Hne IH s)
    as Ht.
  destruct (transform opts hst (fetch opts hst n) filename s) as [[t|e|] s1];
    cbn [snd] in *; try (apply Ht, Hg).
  revert Hg. eapply settled_trans; [exact Ht|].
  eapply settled_trans; [|apply settled_log; not_transform_event].
  rewrite commit_eq. cbn [snd]. intros Hg1. destruct (debugMode opts hst).
  - split; [reflexivity | intros; reflexivity].
  - split; [|intros; reflexivity].
    unfold cache_lookup. cbn. rewrite lookup_insert_ne by exact Hne. reflexivity.
Qed.

(** ** A failed [fetch], continued *)














(** X1: a file that has a mapping in the token cache is not transformed
    again: whatever file a later [fetch] asks for, and however it ends, the
    entry of [g] is the same object and no read, preprocessing or run of
    the runner over [g] happens. *)
Theorem fetch_never_transforms_cached opts hst g n _to from s :
  truthy (cache_lookup s g) = true ->
  cache_lookup (snd (fetch opts hst n _to from s)) g = cache_lookup s g /\
  occurrences (EvReadFile g) (snd (fetch opts hst n _to from s))
  = occurrences (EvReadFile g) s /\
  occurrences (EvPreprocess g) (snd (fetch opts hst n _to from s))
  = occurrences (EvPreprocess g) s /\
  runs g (snd (fetch opts hst n _to from s)) = runs g s.
Proof.
  intros Hg. destruct (settled_fetch g opts hst n _to from s Hg) as [Hc He].
  split; [exact Hc|]. unfold transform_events in He.
  repeat split; apply He; set_solver.
Qed.

(** ** References in a cycle *)


Lemma fetch_never_transforms_cached_witness :
  cache_lookup
    (snd (fetch Demo.normal Demo.the_host 2 "/app/b.css" "/app/b.css"
            (snd Demo.normal_fetch))) "/app/a.css"
  = VObj 0 /\
  runs "/app/a.css"
    (snd (fetch Demo.normal Demo.the_host 2 "/app/b.css" "/app/b.css"
            (snd Demo.normal_fetch)))
  = 1.
Proof.
  destruct (fetch_never_transforms_cached Demo.normal Demo.the_host "/app/a.css"
              2 "/app/b.css" "/app/b.css" (snd Demo.normal_fetch) eq_refl)
    as (H1 & _ & _ & H4).
  split; [exact H1 | exact H4].
Defined.





(** ** A falsy result of [processTokens] *)

(** X4: in normal mode a result that is falsy (a [processTokens] that
    returns nothing) is stored but never found again: after such a [fetch]
    the path is still a cache miss and the next [fetch] of the file calls
    the runner again. *)
Theorem fetch_falsy_result_not_cached opts hst n m _to from g s tokens s1 :
  debugMode opts hst = false ->
  resolveFilename hst _to from = Ok g ->
  fetch opts hst n _to from s = (Ok tokens, s1) ->
  truthy tokens = false ->
  tokensByFile s1 !! g = Some tokens /\
  truthy (cache_lookup s1 g) = false /\
  runs g s1 < runs g (snd (fetch opts hst (S m) _to from s1)).
Proof.
  intros Hdev Hres Hfetch Hfalsy.
  destruct n as [|n]; [discriminate|].
  rewrite fetch_S, Hres in Hfetch.
  destruct (truthy (cache_lookup s g)) eqn:Hhit.
  { injection Hfetch as <- <-. congruence. }
  rewrite transform_eq in Hfetch.
  destruct (readFileSync hst g) as [raw|] eqn:Hraw; [|discriminate].
  destruct (bind _ _ _) as [[t|e|] s'] in Hfetch; try discriminate.
  rewrite commit_eq, Hdev in Hfetch.
  assert (Hentry : tokensByFile s1 !! g = Some tokens).
  { injection Hfetch as <- <-. cbn. apply lookup_insert_eq. }
  assert (Hmiss : truthy (cache_lookup s1 g) = false)
    by (unfold cache_lookup; rewrite Hentry; exact Hfalsy).
  split; [exact Hentry|]. split; [exact Hmiss|].
  rewrite fetch_S, Hres, Hmiss.
  pose proof (transform_runs opts hst m g raw s1 Hraw) as Hlt.
  destruct (transform opts hst (fetch opts hst m) g s1) as [[t'|e|] s2];
    cbn [snd] in Hlt |- *; try exact Hlt.
  pose proof (runs_grow_commit g opts hst g t' s2) as Hc.
  pose proof (runs_grow_log g (EvDebugTokens t')
                (snd (commit opts hst g t' s2))) as Hl.
  unfold runs_grow in *. lia.
Qed.

Lemma fetch_falsy_result_not_cached_witness :
  tokensByFile (snd Cases.forgetful_fetch) !! "/app/a.css" = Some VUndefined /\
  truthy (cache_lookup (snd Cases.forgetful_fetch) "/app/a.css") = false /\
  runs "/app/a.css" (snd Cases.forgetful_fetch)
  < runs "/app/a.css"
      (snd (fetch Cases.forgetful_config Demo.the_host 1 "/app/a.css" "/app/a.css"
              (snd Cases.forgetful_fetch))).
Proof.
  apply (fetch_falsy_result_not_cached Cases.forgetful_config Demo.the_host 1 0
           "/app/a.css" "/app/a.css" "/app/a.css" Demo.start VUndefined
           (snd Cases.forgetful_fetch)); reflexivity.
Defined.

(** ** A specifier that cannot be resolved *)

(** X5: the resolver fails only through [require.resolve]; a [fetch] of
    such a specifier throws that error at once and leaves the whole store,
    log included, as it was. *)
Theorem fetch_unresolved_throws opts hst n _to from e s :
  resolveFilename hst _to from = Throw e ->
  e = ModuleNotFound _to /\
  require_resolve hst _to = None /\
  fetch opts hst (S n) _to from s = (Throw e, s).
Proof.
  intros Hres. split; [|split].
  - unfold resolveFilename, requireResolve in Hres.
    destruct (regex_test (first_char _to)); [|discriminate].
    destruct (require_resolve hst _to); [discriminate|]. congruence.
  - unfold resolveFilename, requireResolve in Hres.
    destruct (regex_test (first_char _to)); [|discriminate].
    destruct (require_resolve hst _to); [discriminate | reflexivity].
  - rewrite fetch_S, Hres. reflexivity.
Qed.

Lemma fetch_unresolved_throws_witness :
  fetch Demo.normal Cases.bare_host 1 "normalize.css" "/app/a.css" Demo.start
  = (Throw (ModuleNotFound "normalize.css"), Demo.start).
Proof.
  apply (fetch_unresolved_throws Demo.normal Cases.bare_host 0 "normalize.css"
           "/app/a.css" (ModuleNotFound "normalize.css") Demo.start).
  reflexivity.
Defined.

(** ** What happens after the runner *)

Lemma warn_all_trace ws s :
  trace (snd (warn_all ws s)) = (rev (map EvWarn ws) ++ trace s)%list.
Proof.
  revert s. induction ws as [|w ws IH]; intros s; [reflexivity|].
  cbn [warn_all]. unfold bind, emit, modify. rewrite IH. cbn [map rev].
  rewrite <- app_assoc. reflexivity.
Qed.

Lemma finish_trace opts hst filename lr s tokens s' :
  finish opts hst filename lr s = (Ok tokens, s') ->
  EvDebugTokens tokens :: trace s'
  = (rev (finish_events opts filename lr tokens) ++ trace s)%list.
Proof.
  unfold finish, finish_events, bind at 1.
  destruct (warn_all_Ok (lr_warnings lr) s) as (sw & Hw & _).
  pose proof (warn_all_trace (lr_warnings lr) s) as Ht.
  rewrite Hw in Ht |- *. cbn [snd] in Ht.
  destruct (camelCase opts), (processCss opts), (processTokens opts) as [pt|];
    cbn; intros [= <- <-]; cbn; rewrite ?Ht, !rev_app_distr; cbn;
    rewrite <- ?app_assoc; reflexivity.
Qed.

(** X6: between the return of the runner and the return of [fetch], the
    effects are, in this order and once each: every warning of the result
    printed, [processCss] called with the css of the result if configured,
    [processTokens] called if configured, the tokens logged. Warnings do
    not stop the [fetch]. *)
Theorem fetch_miss_events opts hst n _to from filename s tokens s' :
  resolveFilename hst _to from = Ok filename ->
  truthy (cache_lookup s filename) = false ->
  fetch opts hst (S n) _to from s = (Ok tokens, s') ->
  exists raw lr s1,
    readFileSync hst filename = Some raw /\
    run_pipe (fetch opts hst n)
             (runner_process hst (preprocessCss opts raw filename) filename)
             (at_runner filename s) = (Ok lr, s1) /\
    trace s' = (rev (finish_events opts filename lr tokens) ++ trace s1)%list.
Proof.
  intros Hres Hmiss Hfetch.
  destruct (fetch_miss_Ok _ _ _ _ _ _ _ _ _ Hres Hmiss Hfetch)
    as (raw & lr & s1 & s2 & Hraw & Hrun & Hfin & ->).
  exists raw, lr, s1. split; [exact Hraw | split; [exact Hrun|]].
  rewrite <- (finish_trace _ _ _ _ _ _ _ Hfin), commit_eq.
  destruct (debugMode opts hst); reflexivity.
Qed.

Lemma fetch_miss_events_witness :
  trace (snd Cases.warn_fetch)
  = [EvDebugTokens (VObj 1); EvProcessTokens "/app/warn.css";
     EvProcessCss "css" "/app/warn.css"; EvWarn "second"; EvWarn "first";
     EvProcess "/app/warn.css"; EvPreprocess "/app/warn.css";
     EvReadFile "/app/warn.css"; EvDebugFetch "/app/warn.css" FromFs].
Proof.
  assert (Hfetch : fetch Cases.full_config Cases.cyclic_host 1 "/app/warn.css"
                         "/app/warn.css" Demo.start
                   = (Ok (VObj 1), snd Cases.warn_fetch)) by reflexivity.
  destruct (fetch_miss_events Cases.full_config Cases.cyclic_host 0
              "/app/warn.css" "/app/warn.css" "/app/warn.css" Demo.start
              (VObj 1) (snd Cases.warn_fetch) eq_refl eq_refl Hfetch)
    as (raw & lr & s1 & Hraw & Hrun & Htrace).
  rewrite Htrace. injection Hraw as <-. injection Hrun as <- <-. reflexivity.
Defined.

(** ** Reads through the proxy *)

Lemma get_prop_state hst v name s : snd (get_prop hst v name s) = s.
Proof. destruct v; reflexivity. Qed.

Lemma fetch_same_proxies opts hst fuel _to from s :
  proxies (snd (fetch opts hst fuel _to from s)) = proxies s.
Proof.
  apply (keeps_fetch (fun s s' => proxies s' = proxies s)); auto.
  - intros s1 s2 s3 H12 H23. congruence.
  - intros filename tokens s0. rewrite commit_eq.
    destruct (debugMode opts hst); reflexivity.
Qed.

(** The first read of a key through a proxy whose target answers neither
    the key nor [cache] with a truthy value (no override, no inherited
    member, no snapshot), of a file that is not in the token cache under
    the name of the proxy. *)
Lemma proxy_get_first_read opts hst fuel p name s px tokens s1 :
  proxies s !! p = Some px ->
  is_inspect name = false ->
  truthy (target_read hst s p name) = false ->
  truthy (target_read hst s p (KStr "cache")) = false ->
  truthy (cache_lookup s (pfile px)) = false ->
  fetch opts hst fuel (pfile px) (pfile px) s = (Ok tokens, s1) ->
  proxy_get opts hst fuel p name s
  = get_prop hst tokens name
      (if debugMode opts hst then set_target p (KStr "cache") tokens s1 else s1).
Proof.
  intros Hp Hname Hown Hsnap Hmiss Hfetch. unfold proxy_get.
  rewrite (bind_eq_Ok (proxy_file p) _ s (pfile px) s (proxy_file_eq p s px Hp)).
  rewrite Hname.
  rewrite (bind_eq_Ok _ _ s _ s (target_get_eq hst p name s)), Hown.
  rewrite (bind_eq_Ok _ _ s _ s (target_get_eq hst p (KStr "cache") s)), Hsnap.
  rewrite (bind_eq_Ok (ret _) _ s _ s eq_refl), Hsnap.
  rewrite (bind_eq_Ok (gets _) _ s _ s eq_refl), Hmiss. cbn [negb].
  rewrite (bind_eq_Ok _ _ s _ s1 Hfetch).
  destruct (debugMode opts hst); reflexivity.
Qed.

(** An inherited member answers the read of its name: the trap returns what
    the prototype chain of the target gives, and [fetch] does not run. *)
Lemma proxy_get_target_answers opts hst fuel p name s px :
  proxies s !! p = Some px ->
  is_inspect name = false ->
  truthy (target_read hst s p name) = true ->
  proxy_get opts hst fuel p name s = (Ok (target_read hst s p name), s).
Proof.
  intros Hp Hname Hown. unfold proxy_get.
  rewrite (bind_eq_Ok (proxy_file p) _ s (pfile px) s (proxy_file_eq p s px Hp)).
  rewrite Hname.
  rewrite (bind_eq_Ok _ _ s _ s (target_get_eq hst p name s)), Hown.
  reflexivity.
Qed.

(** X7: the first read of a class name that the target does not answer,
    when [fetch] returns a mapping object, gives the token of the class;
    for a name that the mapping has not it gives what [Object.prototype]
    has, [undefined] when the name is no member of it; it does not throw. *)
Theorem proxy_get_missing_key_undefined opts hst fuel p k s px r s1 :
  proxies s !! p = Some px ->
  truthy (target_read hst s p (KStr k)) = false ->
  truthy (target_read hst s p (KStr "cache")) = false ->
  truthy (cache_lookup s (pfile px)) = false ->
  fetch opts hst fuel (pfile px) (pfile px) s = (Ok (VObj r), s1) ->
  (forall v, obj_get k (own_props (heap s1) (VObj r)) = Some v ->
             fst (proxy_get opts hst fuel p (KStr k) s) = Ok v) /\
  (obj_get k (own_props (heap s1) (VObj r)) = None ->
   fst (proxy_get opts hst fuel p (KStr k) s)
   = Ok (object_prototype_get hst ObjectPrototype (KStr k))) /\
  (obj_get k (own_props (heap s1) (VObj r)) = None ->
   k <> "__proto__" ->
   prim_prop hst ObjectPrototype (KStr k) = VUndefined ->
   fst (proxy_get opts hst fuel p (KStr k) s) = Ok VUndefined).
Proof.
  intros Hp Hown Hsnap Hmiss Hfetch.
  rewrite (proxy_get_first_read opts hst fuel p (KStr k) s px (VObj r) s1
             Hp eq_refl Hown Hsnap Hmiss Hfetch).
  assert (Hfst : fst (get_prop hst (VObj r) (KStr k)
                        (if debugMode opts hst
                         then set_target p (KStr "cache") (VObj r) s1 else s1))
                 = Ok (default (object_prototype_get hst ObjectPrototype (KStr k))
                               (obj_get k (own_props (heap s1) (VObj r)))))
    by (destruct (debugMode opts hst); reflexivity).
  rewrite Hfst. split; [|split].
  - intros v Hv. rewrite Hv. reflexivity.
  - intros Hnone. rewrite Hnone. reflexivity.
  - intros Hnone Hk Hmember. rewrite Hnone. cbn [default from_option id].
    unfold object_prototype_get.
    destruct (decide (KStr k = KStr "__proto__")) as [Heq|_]; [congruence|].
    rewrite Hmember. reflexivity.
Qed.

Lemma proxy_get_missing_key_undefined_witness :
  fst (proxy_get Demo.normal Demo.the_host 2 0 (KStr "bar") Demo.with_proxy)
  = Ok VUndefined.
Proof.
  assert (Hfetch : fetch Demo.normal Demo.the_host 2 "/app/a.css" "/app/a.css"
                         Demo.with_proxy
                   = (Ok (VObj 0),
                      snd (fetch Demo.normal Demo.the_host 2 "/app/a.css"
                             "/app/a.css" Demo.with_proxy))) by reflexivity.
  destruct (proxy_get_missing_key_undefined Demo.normal Demo.the_host 2 0 "bar"
              Demo.with_proxy (mkProxy "/app/a.css" ∅) 0 _
              eq_refl eq_refl eq_refl eq_refl Hfetch) as (_ & _ & H).
  apply H; [reflexivity|discriminate|reflexivity].
Defined.

(** X8: when [fetch] returns [undefined] or [null] (a [processTokens] that
    returns nothing), the first read of a name that the target does not
    answer throws a [TypeError]. *)
Theorem proxy_get_nullish_mapping_throws opts hst fuel p name s px tokens s1 :
  proxies s !! p = Some px ->
  is_inspect name = false ->
  truthy (target_read hst s p name) = false ->
  truthy (target_read hst s p (KStr "cache")) = false ->
  truthy (cache_lookup s (pfile px)) = false ->
  fetch opts hst fuel (pfile px) (pfile px) s = (Ok tokens, s1) ->
  tokens = VUndefined \/ tokens = VNull ->
  fst (proxy_get opts hst fuel p name s)
  = Throw (TypeError "Cannot read properties of undefined").
Proof.
  intros Hp Hname Hown Hsnap Hmiss Hfetch Hnull.
  rewrite (proxy_get_first_read opts hst fuel p name s px tokens s1
             Hp Hname Hown Hsnap Hmiss Hfetch).
  destruct Hnull as [-> | ->]; reflexivity.
Qed.

Lemma proxy_get_nullish_mapping_throws_witness :
  fst (proxy_get Cases.forgetful_config Demo.the_host 1 0 (KStr "foo")
         Demo.with_proxy)
  = Throw (TypeError "Cannot read properties of undefined").
Proof.
  assert (Hfetch : fetch Cases.forgetful_config Demo.the_host 1 "/app/a.css"
                         "/app/a.css" Demo.with_proxy
                   = (Ok VUndefined,
                      snd (fetch Cases.forgetful_config Demo.the_host 1
                             "/app/a.css" "/app/a.css" Demo.with_proxy)))
    by reflexivity.
  apply (proxy_get_nullish_mapping_throws Cases.forgetful_config Demo.the_host
           1 0 (KStr "foo") Demo.with_proxy (mkProxy "/app/a.css" ∅) VUndefined _
           eq_refl eq_refl eq_refl eq_refl eq_refl Hfetch).
  left. reflexivity.
Defined.

(** X9: in live-reload mode the snapshot is the property [cache] of the
    target: after a first read that fetched a mapping, the read of the name
    [cache] through the proxy returns the whole mapping object, not the
    token of a class of that name, and runs nothing. *)
Theorem proxy_get_cache_returns_snapshot opts hst fuel fuel' p name s px tokens s1 :
  debugMode opts hst = true ->
  proxies s !! p = Some px ->
  is_inspect name = false ->
  truthy (target_read hst s p name) = false ->
  truthy (target_read hst s p (KStr "cache")) = false ->
  truthy (cache_lookup s (pfile px)) = false ->
  fetch opts hst fuel (pfile px) (pfile px) s = (Ok tokens, s1) ->
  truthy tokens = true ->
  proxy_get opts hst fuel' p (KStr "cache")
            (snd (proxy_get opts hst fuel p name s))
  = (Ok tokens, snd (proxy_get opts hst fuel p name s)).
Proof.
  intros Hdev Hp Hname Hown Hsnap Hmiss Hfetch Htruthy.
  rewrite (proxy_get_first_read opts hst fuel p name s px tokens s1
             Hp Hname Hown Hsnap Hmiss Hfetch), Hdev, get_prop_state.
  assert (Hp1 : proxies s1 !! p = Some px).
  { pose proof (fetch_same_proxies opts hst fuel (pfile px) (pfile px) s) as H.
    rewrite Hfetch in H. cbn [snd] in H. rewrite H. exact Hp. }
  assert (Hcache : KStr "cache" <> KStr "__proto__") by discriminate.
  pose proof (target_read_set_target hst s1 p (KStr "cache") tokens px Hp1 Hcache)
    as Hread.
  rewrite <- Hread at 2.
  apply (proxy_get_target_answers opts hst fuel' p (KStr "cache") _
           (mkProxyWith (pfile px) (<[KStr "cache" := tokens]> (ptarget px))
                        (pproto px))).
  - exact (proxies_set_target s1 p (KStr "cache") tokens px Hp1 Hcache).
  - reflexivity.
  - rewrite Hread. exact Htruthy.
Qed.

Lemma proxy_get_cache_returns_snapshot_witness :
  proxy_get Demo.dev Demo.the_host 0 0 (KStr "cache")
            (snd (proxy_get Demo.dev Demo.the_host 2 0 (KStr "foo") Demo.with_proxy))
  = (Ok (VObj 0),
     snd (proxy_get Demo.dev Demo.the_host 2 0 (KStr "foo") Demo.with_proxy)).
Proof.
  assert (Hfetch : fetch Demo.dev Demo.the_host 2 "/app/a.css" "/app/a.css"
                         Demo.with_proxy
                   = (Ok (VObj 0),
                      snd (fetch Demo.dev Demo.the_host 2 "/app/a.css"
                             "/app/a.css" Demo.with_proxy))) by reflexivity.
  apply (proxy_get_cache_returns_snapshot Demo.dev Demo.the_host 2 0 0 (KStr "foo")
           Demo.with_proxy (mkProxy "/app/a.css" ∅) (VObj 0) _
           eq_refl eq_refl eq_refl eq_refl eq_refl eq_refl Hfetch eq_refl).
Defined.

(** X17: a class name that is the name of a member of [Object.prototype],
    such as [constructor] or [toString], is answered by the target of the
    proxy, an object literal: the read returns the inherited member, not
    the token of the class, and [fetch] does not run. The read of
    [__proto__] returns [Object.prototype] in the same way. *)
Theorem proxy_get_inherited_member opts hst fuel p name s px :
  proxies s !! p = Some px ->
  is_inspect name = false ->
  ptarget px !! name = None ->
  pproto px = ObjectPrototype ->
  (name <> KStr "__proto__" ->
   truthy (prim_prop hst ObjectPrototype name) = true ->
   proxy_get opts hst fuel p name s
   = (Ok (prim_prop hst ObjectPrototype name), s)) /\
  (name = KStr "__proto__" ->
   proxy_get opts hst fuel p name s = (Ok ObjectPrototype, s)).
Proof.
  intros Hp Hname Hown Hproto.
  assert (Hread : target_read hst s p name
                  = if decide (name = KStr "__proto__") then ObjectPrototype
                    else prim_prop hst ObjectPrototype name).
  { unfold target_read, target_of, proto_of, plain_get. rewrite Hp.
    cbn [from_option]. rewrite Hown, Hproto. reflexivity. }
  split.
  - intros Hne Hmember. rewrite decide_False in Hread by exact Hne.
    rewrite <- Hread.
    apply (proxy_get_target_answers opts hst fuel p name s px Hp Hname).
    rewrite Hread. exact Hmember.
  - intros Heq. rewrite decide_True in Hread by exact Heq.
    rewrite <- Hread.
    apply (proxy_get_target_answers opts hst fuel p name s px Hp Hname).
    rewrite Hread. reflexivity.
Qed.

Lemma proxy_get_inherited_member_witness :
  proxy_get Demo.normal Demo.the_host 2 0 (KStr "constructor") Demo.with_proxy
  = (Ok (VHost 1), Demo.with_proxy).
Proof.
  destruct (proxy_get_inherited_member Demo.normal Demo.the_host 2 0
              (KStr "constructor") Demo.with_proxy (mkProxy "/app/a.css" ∅)
              eq_refl eq_refl eq_refl eq_refl) as [H _].
  apply H; [discriminate | reflexivity].
Defined.

(** ** Reads of a file that is in the token cache *)

Lemma quiet_refl s : quiet s s.
Proof. repeat split. Qed.

Lemma quiet_trans s1 s2 s3 : quiet s1 s2 -> quiet s2 s3 -> quiet s1 s3.
Proof.
  intros (Hc & Hr & Hh & Hf) (Hc' & Hr' & Hh' & Hf').
  split; [congruence|]. split; [congruence|]. split; [congruence|].
  intros f. destruct (Hf f) as (H1 & H2 & H3), (Hf' f) as (H1' & H2' & H3').
  repeat split; congruence.
Qed.

Lemma quiet_same s s' :
  tokensByFile s' = tokensByFile s -> requireCache s' = requireCache s ->
  heap s' = heap s -> trace s' = trace s -> quiet s s'.
Proof.
  intros Hc Hr Hh Ht. unfold quiet, runs, fetches, occurrences.
  rewrite Hc, Hr, Hh, Ht. repeat split.
Qed.

Lemma quiet_hit filename tokens s :
  quiet s (log (EvDebugTokens tokens) (log (EvDebugFetch filename FromCache) s)).
Proof.
  unfold quiet. repeat split; unfold runs, fetches, occurrences; cbn [log trace];
    rewrite !filter_cons; repeat (rewrite decide_False by discriminate);
    reflexivity.
Qed.

Lemma cached_quiet_refl g s : cached_quiet g s s.
Proof. intros _. apply quiet_refl. Qed.

Lemma cached_quiet_trans g s1 s2 s3 :
  cached_quiet g s1 s2 -> cached_quiet g s2 s3 -> cached_quiet g s1 s3.
Proof.
  intros H12 H23 H1. specialize (H12 H1). eapply quiet_trans; [exact H12|].
  apply H23. destruct H12 as [Hc _]. unfold cache_lookup in *.
  rewrite Hc. exact H1.
Qed.

Lemma cached_quiet_get_prop g hst v n : keeps (cached_quiet g) (get_prop hst v n).
Proof. intros s _. rewrite get_prop_state. apply quiet_refl. Qed.

Lemma cached_quiet_fetch g opts hst fuel f :
  resolveFilename hst f f = Ok g ->
  keeps (cached_quiet g) (fetch opts hst fuel f f).
Proof.
  intros Hres s Hc. destruct fuel as [|fuel]; [apply quiet_refl|].
  rewrite fetch_S, Hres, Hc. apply quiet_hit.
Qed.

(** X10: while the file of a proxy is in the token cache, a read of any name
    through the proxy, overridden or not, neither reads the file nor runs
    the runner for any file, and leaves the token cache, [require.cache]
    and the objects as they are. *)
Theorem proxy_get_cached_is_quiet opts hst fuel p name s px g :
  proxies s !! p = Some px ->
  resolveFilename hst (pfile px) (pfile px) = Ok g ->
  truthy (cache_lookup s g) = true ->
  quiet s (snd (proxy_get opts hst fuel p name s)).
Proof.
  intros Hp Hres. unfold proxy_get.
  rewrite (bind_eq_Ok (proxy_file p) _ s (pfile px) s)
    by (unfold proxy_file; rewrite Hp; reflexivity).
  clear Hp. revert s.
  pose proof (cached_quiet_refl g) as Hrefl.
  pose proof (cached_quiet_trans g) as Htrans.
  pose proof (cached_quiet_fetch g opts hst fuel (pfile px) Hres) as Hfetch.
  match goal with
  | |- forall s, _ -> quiet s (snd (?m s)) => change (keeps (cached_quiet g) m)
  end.
  apply keeps_if.
  - apply keeps_bind; [exact Htrans | apply keeps_gets, Hrefl | intros c].
    apply keeps_if; [apply keeps_ret, Hrefl|].
    apply keeps_bind; [exact Htrans | apply keeps_gets, Hrefl | intros t].
    apply keeps_if; [apply keeps_ret, Hrefl | exact Hfetch].
  - apply keeps_bind; [exact Htrans | apply keeps_gets, Hrefl | intros own].
    apply keeps_if; [apply keeps_ret, Hrefl|].
    apply keeps_bind; [exact Htrans | apply keeps_gets, Hrefl | intros c].
    apply keeps_bind; [exact Htrans | | intros cn].
    { apply keeps_if; [apply cached_quiet_get_prop | apply keeps_ret, Hrefl]. }
    apply keeps_if; [apply cached_quiet_get_prop|].
    apply keeps_bind; [exact Htrans | apply keeps_gets, Hrefl | intros t].
    apply keeps_if; [|apply cached_quiet_get_prop].
    apply keeps_bind; [exact Htrans | exact Hfetch | intros tokens].
    apply keeps_bind; [exact Htrans | | intros _; apply cached_quiet_get_prop].
    apply keeps_if; [|apply keeps_ret, Hrefl].
    apply keeps_modify. intros s0 _. apply quiet_same; reflexivity.
Qed.

Lemma proxy_get_cached_is_quiet_witness :
  quiet (snd (fetch Demo.normal Demo.the_host 2 "/app/a.css" "/app/a.css"
                Demo.with_proxy))
        (snd (proxy_get Demo.normal Demo.the_host 2 0 (KStr "foo")
                (snd (fetch Demo.normal Demo.the_host 2 "/app/a.css" "/app/a.css"
                        Demo.with_proxy)))).
Proof.
  apply (proxy_get_cached_is_quiet Demo.normal Demo.the_host 2 0 (KStr "foo") _
           (mkProxy "/app/a.css" ∅) "/app/a.css"); reflexivity.
Defined.

(** ** Loading a file through the hook *)

Lemma proxy_key_compiled hst toString h fullFilename :
  proxy_key hst toString h (compiled_exports fullFilename)
  = fullFilename +:+ ".proxy".
Proof.
  unfold proxy_key, export_read, compiled_exports, plain_get.
  cbn [plain_own plain_proto]. rewrite lookup_singleton_eq. reflexivity.
Qed.

Lemma cssModulesHook_loads opts hst module filename fullFilename s :
  truthy (isException opts hst filename) = false ->
  resolveFilename hst filename filename = Ok fullFilename ->
  cssModulesHook opts hst module filename s
  = (Ok tt,
     log (EvCompile fullFilename filename)
       (require_cache_put (filename +:+ ".proxy") (CProxy (length (proxies s)))
          (set_proxies (proxies s ++ [mkProxy fullFilename ∅])
             (log (EvDebugFetch filename FromRequire) s)))).
Proof.
  intros Hig Hres. unfold cssModulesHook. rewrite Hig, Hres. reflexivity.
Qed.

(** X11: loading a file that is not ignored, whose name the resolver leaves
    as it is, does not read or transform it; it makes a new proxy without
    overrides, and a read of any name but [__esModule] through the exported
    proxy is the read of that name through the new proxy. *)
Theorem hook_then_export_read opts hst toString module_prop module filename s
        fuel name :
  truthy (isException opts hst filename) = false ->
  resolveFilename hst filename filename = Ok filename ->
  name <> KStr "__esModule" ->
  fst (cssModulesHook opts hst module filename s) = Ok tt /\
  tokensByFile (snd (cssModulesHook opts hst module filename s)) = tokensByFile s /\
  (forall f, runs f (snd (cssModulesHook opts hst module filename s)) = runs f s /\
             occurrences (EvReadFile f) (snd (cssModulesHook opts hst module filename s))
             = occurrences (EvReadFile f) s) /\
  proxies (snd (cssModulesHook opts hst module filename s)) !! length (proxies s)
  = Some (mkProxy filename ∅) /\
  export_get opts hst toString module_prop fuel (compiled_exports filename) name
             (snd (cssModulesHook opts hst module filename s))
  = proxy_get opts hst fuel (length (proxies s)) name
              (snd (cssModulesHook opts hst module filename s)).
Proof.
  intros Hig Hres Hname.
  rewrite (cssModulesHook_loads opts hst module filename filename s Hig Hres).
  cbn [fst snd]. split; [reflexivity|]. split; [reflexivity|]. split; [|split].
  - intros f. unfold runs, occurrences. cbn [log trace require_cache_put set_proxies].
    rewrite !filter_cons. repeat (rewrite decide_False by discriminate).
    split; reflexivity.
  - cbn. apply list_lookup_middle. reflexivity.
  - unfold export_get. rewrite decide_False by exact Hname.
    unfold bind, gets. rewrite proxy_key_compiled.
    cbn [log requireCache require_cache_put].
    rewrite lookup_insert_eq. reflexivity.
Qed.

Lemma hook_then_export_read_witness :
  fst (export_get Demo.normal Demo.the_host Cases.js_string (fun _ _ => VUndefined)
         2 (compiled_exports "/app/a.css") (KStr "foo")
         (Cases.hooked Demo.normal))
  = Ok (VStr "x").
Proof.
  destruct (hook_then_export_read Demo.normal Demo.the_host Cases.js_string
              (fun _ _ => VUndefined) (VObj 7) "/app/a.css" Demo.start 2
              (KStr "foo") eq_refl eq_refl ltac:(discriminate))
    as (_ & _ & _ & _ & H).
  unfold Cases.hooked. rewrite H. reflexivity.
Defined.

(** X12: the reads through the exported proxy only look at [filename] and
    [__esModule] of the target. An assignment of another name, [__proto__]
    apart, is not read back. The flag [__esModule] is answered from the
    target, without a look at the proxy of the file: after the load it is
    what [Object.prototype] has, [undefined] when that has no such member;
    after an assignment it is the assigned value, falsy or not; and after
    the assignment of a mapping object to [__proto__], which becomes the
    prototype of the target, it is the flag of that object. *)
Theorem export_set_then_get opts hst toString module_prop fuel h target name v :
  (forall name' s,
      name <> KStr "__esModule" -> name <> KStr "filename" ->
      name <> KStr "__proto__" ->
      export_get opts hst toString module_prop fuel (export_set h target name v)
                 name' s
      = export_get opts hst toString module_prop fuel target name' s) /\
  (forall s,
      export_get opts hst toString module_prop fuel
                 (export_set h target (KStr "__esModule") v) (KStr "__esModule") s
      = (Ok v, s)) /\
  (forall fullFilename s,
      export_get opts hst toString module_prop fuel (compiled_exports fullFilename)
                 (KStr "__esModule") s
      = (Ok (prim_prop hst ObjectPrototype (KStr "__esModule")), s)) /\
  (forall fullFilename r flag s,
      obj_get "__esModule" (own_props (heap s) (VObj r)) = Some flag ->
      export_get opts hst toString module_prop fuel
                 (export_set (heap s) (compiled_exports fullFilename)
                             (KStr "__proto__") (VObj r))
                 (KStr "__esModule") s
      = (Ok flag, s)).
Proof.
  split; [|split; [|split]].
  - intros name' s Hes Hfn Hproto.
    unfold export_get, proxy_key, export_read, export_set.
    rewrite (plain_set_own _ _ _ _ _ Hproto). cbn [fst snd plain_own plain_proto].
    unfold plain_get. rewrite !lookup_insert_ne by exact Hfn || exact Hes.
    reflexivity.
  - intros s. unfold export_get, export_read, export_set.
    rewrite decide_True by reflexivity.
    rewrite plain_set_own by discriminate. cbn [fst snd plain_own plain_proto].
    unfold plain_get, gets. rewrite lookup_insert_eq. reflexivity.
  - intros fullFilename s. unfold export_get, export_read, compiled_exports.
    rewrite decide_True by reflexivity. cbn [plain_own plain_proto].
    unfold plain_get, gets. rewrite lookup_singleton_ne by discriminate.
    reflexivity.
  - intros fullFilename r flag s Hflag.
    unfold export_get, export_read, export_set, compiled_exports.
    rewrite decide_True by reflexivity. cbn [plain_own plain_proto].
    unfold plain_set. rewrite lookup_singleton_ne by discriminate.
    rewrite decide_True by reflexivity.
    cbn [reaches_proto_setter ObjectPrototype is_object_or_null fst snd].
    unfold plain_get, gets. rewrite lookup_singleton_ne by discriminate.
    cbn [inherited_get object_get]. cbn [own_props] in Hflag.
    rewrite Hflag. reflexivity.
Qed.

Lemma export_set_then_get_witness :
  export_get Demo.normal Demo.the_host Cases.js_string (fun _ _ => VUndefined) 2
             (export_set (heap Cases.flagged) (compiled_exports "/app/a.css")
                         (KStr "__proto__") (VObj 0))
             (KStr "__esModule") Cases.flagged
  = (Ok (VBool true), Cases.flagged).
Proof.
  destruct (export_set_then_get Demo.normal Demo.the_host Cases.js_string
              (fun _ _ => VUndefined) 2 [] (compiled_exports "/app/a.css")
              (KStr "foo") VUndefined) as (_ & _ & _ & H).
  apply (H "/app/a.css" 0 (VBool true)). reflexivity.
Defined.

Lemma string_length_app (s1 s2 : string) :
  String.length (s1 +:+ s2) = String.length s1 + String.length s2.
Proof.
  induction s1 as [|c s1 IH]; [reflexivity|].
  change (S (String.length (s1 +:+ s2)) = S (String.length s1 + String.length s2)).
  rewrite IH. reflexivity.
Qed.

Lemma string_app_inv_tail (s1 s2 t : string) : s1 +:+ t = s2 +:+ t -> s1 = s2.
Proof.
  revert s2. induction s1 as [|c s1 IH]; intros [|c' s2] H.
  - reflexivity.
  - apply (f_equal String.length) in H.
    change (String.length t = S (String.length (s2 +:+ t))) in H.
    rewrite string_length_app in H. lia.
  - apply (f_equal String.length) in H.
    change (S (String.length (s1 +:+ t)) = String.length t) in H.
    rewrite string_length_app in H. lia.
  - change (String c (s1 +:+ t) = String c' (s2 +:+ t)) in H.
    injection H as -> H. f_equal. apply IH, H.
Qed.

(** X13: the proxy is stored under the name the hook was called with, and
    looked up under the resolved name. When the resolver changes the name
    and nothing is stored under the resolved one, the load succeeds and
    every read through the exported proxy, [__esModule] apart, throws a
    [TypeError]. *)
Theorem export_get_unregistered_throws opts hst toString module_prop module
        filename fullFilename s fuel name :
  truthy (isException opts hst filename) = false ->
  resolveFilename hst filename filename = Ok fullFilename ->
  fullFilename <> filename ->
  requireCache s !! (fullFilename +:+ ".proxy") = None ->
  name <> KStr "__esModule" ->
  fst (cssModulesHook opts hst module filename s) = Ok tt /\
  fst (export_get opts hst toString module_prop fuel
         (compiled_exports fullFilename) name
         (snd (cssModulesHook opts hst module filename s)))
  = Throw (TypeError "Cannot read properties of undefined").
Proof.
  intros Hig Hres Hne Hnone Hname.
  rewrite (cssModulesHook_loads opts hst module filename fullFilename s Hig Hres).
  split; [reflexivity|].
  unfold export_get. rewrite decide_False by exact Hname.
  unfold bind, gets. rewrite proxy_key_compiled.
  cbn [snd log requireCache require_cache_put].
  rewrite lookup_insert_ne.
  - cbn [requireCache set_proxies log]. rewrite Hnone. reflexivity.
  - intros Heq. apply Hne. symmetry. eapply string_app_inv_tail, Heq.
Qed.

Lemma export_get_unregistered_throws_witness :
  fst (export_get Demo.normal Demo.the_host Cases.js_string (fun _ _ => VUndefined)
         2 (compiled_exports "/node_modules/a.css") (KStr "foo")
         (snd (cssModulesHook Demo.normal Demo.the_host (VObj 7) "a.css" Demo.start)))
  = Throw (TypeError "Cannot read properties of undefined").
Proof.
  apply (export_get_unregistered_throws Demo.normal Demo.the_host Cases.js_string
           (fun _ _ => VUndefined) (VObj 7) "a.css" "/node_modules/a.css" Demo.start
           2 (KStr "foo")); try reflexivity; discriminate.
Defined.

(** X14: with no [ignore] option the exception checker is
    [negate(identity)]: the empty path is the only exception, and a file
    with any other name is never handed to the previous handler. *)
Theorem hook_without_ignore opts hst module filename s :
  ignore opts = IgnoreUnset ->
  truthy (isException opts hst "") = true /\
  (filename <> "" ->
   truthy (isException opts hst filename) = false /\
   occurrences (EvDelegate module filename)
     (snd (cssModulesHook opts hst module filename s))
   = occurrences (EvDelegate module filename) s /\
   fst (cssModulesHook opts hst module filename s) <> Throw (ReferenceError "m")).
Proof.
  intros Hig. unfold isException. rewrite Hig. split; [reflexivity|].
  intros Hne.
  assert (Hfalse : truthy (buildExceptionChecker hst IgnoreUnset filename) = false).
  { cbn. destruct filename; [contradiction | reflexivity]. }
  split; [exact Hfalse|].
  assert (Hfalse' : truthy (isException opts hst filename) = false)
    by (unfold isException; rewrite Hig; exact Hfalse).
  destruct (resolveFilename hst filename filename) as [full|e|] eqn:Hres.
  - rewrite (cssModulesHook_loads opts hst module filename full s Hfalse' Hres).
    cbn [fst snd]. split; [|discriminate].
    unfold occurrences. cbn [log trace require_cache_put set_proxies].
    rewrite !filter_cons. repeat (rewrite decide_False by discriminate).
    reflexivity.
  - unfold cssModulesHook. rewrite Hfalse', Hres. cbn.
    split; [reflexivity|]. intros [= ->].
    unfold resolveFilename, requireResolve in Hres.
    destruct (regex_test _); [|discriminate].
    destruct (require_resolve _ _); discriminate.
  - unfold cssModulesHook. rewrite Hfalse', Hres. cbn.
    split; [reflexivity | discriminate].
Qed.

Lemma hook_without_ignore_witness :
  truthy (isException Cases.full_config Demo.the_host "/app/a.css") = false.
Proof.
  destruct (hook_without_ignore Cases.full_config Demo.the_host (VObj 7)
              "/app/a.css" Demo.start eq_refl) as [_ H].
  apply H. discriminate.
Defined.

(** ** One entry for each absolute path *)

(** X15: the token cache is keyed by the resolved path. In normal mode, once
    a [fetch] has returned a mapping object for a file, a [fetch] with any
    other specifier and referencing file that resolve to the same path
    returns the same reference, from the cache. *)
Theorem fetch_same_path_same_reference opts hst n m _to from _to' from' g s
        tokens s1 :
  debugMode opts hst = false ->
  resolveFilename hst _to from = Ok g ->
  resolveFilename hst _to' from' = Ok g ->
  fetch opts hst n _to from s = (Ok tokens, s1) ->
  truthy tokens = true ->
  fetch opts hst (S m) _to' from' s1
  = (Ok tokens, log (EvDebugTokens tokens) (log (EvDebugFetch g FromCache) s1)).
Proof.
  intros Hdev Hres Hres' Hfetch Htruthy.
  destruct (fetch_normal_cached opts hst n _to from s tokens s1 Hdev Hfetch)
    as (g' & Hg' & Hcache).
  rewrite Hres in Hg'. injection Hg' as <-.
  rewrite fetch_S, Hres', Hcache, Htruthy. reflexivity.
Qed.

Lemma fetch_same_path_same_reference_witness :
  fetch Demo.normal Demo.the_host 1 "./a.css" "/app/b.css" (snd Demo.normal_fetch)
  = (Ok (VObj 0),
     log (EvDebugTokens (VObj 0))
         (log (EvDebugFetch "/app/a.css" FromCache) (snd Demo.normal_fetch))).
Proof.
  apply (fetch_same_path_same_reference Demo.normal Demo.the_host 2 0
           "/app/a.css" "/app/a.css" "./a.css" "/app/b.css" "/app/a.css"
           Demo.start (VObj 0) (snd Demo.normal_fetch)); reflexivity.
Defined.

(** ** The installation of the hook *)

Lemma install_cons e exts registry :
  install (e :: exts) registry
  = install exts (<[e := CssModulesHook (handler_of registry e)]> registry).
Proof. reflexivity. Qed.

Lemma install_other exts registry extension :
  extension ∉ exts ->
  handler_of (install exts registry) extension = handler_of registry extension.
Proof.
  revert registry. induction exts as [|e exts IH]; intros registry Hnot;
    [reflexivity|].
  apply not_elem_of_cons in Hnot as [Hne Hnot].
  rewrite install_cons, IH by exact Hnot.
  unfold handler_of. rewrite lookup_insert_ne by congruence. reflexivity.
Qed.

(** X16: after the installation every listed extension has a
    [cssModulesHook], and every other extension the handler it had. When
    an extension is listed once, its hook has closed over the handler that
    was registered before ([undefined] when there was none); by default
    the only extension is [.css]. *)
Theorem install_spec exts registry extension :
  (extension ∉ exts ->
   handler_of (install exts registry) extension = handler_of registry extension) /\
  (extension ∈ exts ->
   exists previous,
     handler_of (install exts registry) extension = CssModulesHook previous) /\
  (NoDup exts -> extension ∈ exts ->
   handler_of (install exts registry) extension
   = CssModulesHook (handler_of registry extension)) /\
  handler_of (setup_extensions None registry) ".css"
  = CssModulesHook (handler_of registry ".css").
Proof.
  split; [apply install_other|]. split; [|split].
  - revert registry. induction exts as [|e exts IH]; intros registry Hin.
    + apply elem_of_nil in Hin. contradiction.
    + rewrite install_cons. destruct (decide (extension ∈ exts)) as [Hin'|Hnot].
      * apply IH, Hin'.
      * apply elem_of_cons in Hin as [->|Hin]; [|contradiction].
        rewrite install_other by exact Hnot. unfold handler_of at 1.
        rewrite lookup_insert_eq. eexists. reflexivity.
  - revert registry. induction exts as [|e exts IH]; intros registry Hnd Hin.
    + apply elem_of_nil in Hin. contradiction.
    + apply NoDup_cons in Hnd as [Hnot Hnd]. rewrite install_cons.
      apply elem_of_cons in Hin as [->|Hin].
      * rewrite install_other by exact Hnot. unfold handler_of at 1.
        rewrite lookup_insert_eq. reflexivity.
      * rewrite IH by assumption. f_equal. unfold handler_of.
        rewrite lookup_insert_ne; [reflexivity|]. intros ->. contradiction.
  - unfold setup_extensions, extensions_or_default. cbn [default from_option id toArray].
    cbn [install fold_left]. unfold handler_of at 1. rewrite lookup_insert_eq.
    reflexivity.
Qed.

(** An extension listed twice: the second hook closes over the first. *)
Lemma install_twice registry extension :
  handler_of (install [extension; extension] registry) extension
  = CssModulesHook (CssModulesHook (handler_of registry extension)).
Proof.
  cbn [install fold_left]. unfold handler_of at 1. rewrite lookup_insert_eq.
  unfold handler_of at 1. rewrite lookup_insert_eq. reflexivity.
Qed.
